(** * iMessage extraction: the message-text recovery pipeline

    A shallow embedding of [scripts/create_clean_db.py]: the Apple timestamp
    conversion, the [attributedBody] decoder, the text cleaner, the two
    message classifiers and the per-row dispatch of [create_clean_database].

    Python values are modelled as follows.
    - [str] is a list of Unicode code points ([pystr], code points in [N]);
    - [bytes] is a list of [byte];
    - [None] is [None] of an option type, so a function that may return
      [None] or a string has result type [option pystr];
    - Python integers are [Z]. *)

From Stdlib Require Import ZArith NArith List Bool Lia.
From Stdlib Require Import Strings.String Strings.Ascii Strings.Byte.
From Stdlib Require Floats.
Import ListNotations.

Set Implicit Arguments.

Local Open Scope bool_scope.
Local Open Scope N_scope.

(* ================================================================== *)
(** ** Python strings and bytes *)
(* ================================================================== *)

Definition pychar := N.
Definition pystr := list pychar.
Definition pybytes := list byte.

(** A string literal of the script, as code points (ASCII literals only). *)
Definition lit (s : string) : pystr := map N_of_ascii (list_ascii_of_string s).

(** A bytes literal of the script. *)
Definition blit (s : string) : pybytes := list_byte_of_string s.

Fixpoint str_eqb (a b : pystr) : bool :=
  match a, b with
  | [], [] => true
  | x :: a', y :: b' => N.eqb x y && str_eqb a' b'
  | _, _ => false
  end.

(** [s.startswith(p)] on code points. *)
Fixpoint starts_with (p s : pystr) : bool :=
  match p, s with
  | [], _ => true
  | x :: p', y :: s' => N.eqb x y && starts_with p' s'
  | _ :: _, [] => false
  end.

(** Truthiness of an optional string: [None] and the empty string are falsy. *)
Definition truthy (t : option pystr) : bool :=
  match t with
  | None => false
  | Some [] => false
  | Some (_ :: _) => true
  end.

Fixpoint dropwhile {A} (p : A -> bool) (l : list A) : list A :=
  match l with
  | [] => []
  | x :: t => if p x then dropwhile p t else l
  end.

(** [Py_UNICODE_ISSPACE]: the characters removed by [str.strip()] and
    matched by [\s] in a [str] pattern. *)
Definition isspace (c : pychar) : bool :=
  ((0x09 <=? c) && (c <=? 0x0D)) || ((0x1C <=? c) && (c <=? 0x20))
  || (c =? 0x85) || (c =? 0xA0) || (c =? 0x1680)
  || ((0x2000 <=? c) && (c <=? 0x200A))
  || (c =? 0x2028) || (c =? 0x2029) || (c =? 0x202F) || (c =? 0x205F)
  || (c =? 0x3000).

Definition lstrip (s : pystr) : pystr := dropwhile isspace s.
Definition rstrip (s : pystr) : pystr := rev (dropwhile isspace (rev s)).
(** [s.strip()] *)
Definition strip (s : pystr) : pystr := rstrip (lstrip s).

(** The tables of the Unicode character database that the script consults
    through [str.isprintable], [str.isalpha], [str.islower], [str.isupper]
    (each on a one-character string) and [str.lower].  They belong to the
    Python runtime, not to the script, and are a parameter of the model. *)
Record UnicodeData := {
  isprintable : pychar -> bool;
  isalpha : pychar -> bool;
  islower : pychar -> bool;
  isupper : pychar -> bool;
  lower : pystr -> pystr
}.

Definition ascii_upper (c : pychar) : bool := (65 <=? c) && (c <=? 90).
Definition ascii_lower (c : pychar) : bool := (97 <=? c) && (c <=? 122).
(** [[A-Za-z]] *)
Definition ascii_letter (c : pychar) : bool := ascii_upper c || ascii_lower c.
(** [[0-9]] *)
Definition ascii_digit (c : pychar) : bool := (48 <=? c) && (c <=? 57).

(** The tables on the ASCII block, where they are exact; a code point
    above U+007F is classed as a printable character without case.  Used
    for the examples, whose inputs are ASCII. *)
Definition ascii_tables : UnicodeData := {|
  isprintable := fun c => if c <? 128 then (32 <=? c) && (c <? 127) else true;
  isalpha := ascii_letter;
  islower := ascii_lower;
  isupper := ascii_upper;
  lower := map (fun c => if ascii_upper c then c + 32 else c)
|}.

(* ================================================================== *)
(** ** [clean_message] *)
(* ================================================================== *)

(** The class [[\+\*\!\.\,\;\#\%\`\~\^\&\@\$\s]] of the leading format
    codes.  The pattern is that class repeated and anchored by [^], so
    [re.sub] removes the longest prefix of the text in the class. *)
Definition format_code (c : pychar) : bool :=
  (c =? 43) || (c =? 42) || (c =? 33) || (c =? 46) || (c =? 44) || (c =? 59)
  || (c =? 35) || (c =? 37) || (c =? 96) || (c =? 126) || (c =? 94)
  || (c =? 38) || (c =? 64) || (c =? 36) || isspace c.

(** [re.sub(pat, '', text)] for a pattern [pat] that ends in [$]: the
    search tries each start position from the left; [m] matches the
    pattern against the text from one start position and returns what is
    left after the match (nothing, or the final newline before which [$]
    also matches).  After the first match the scan is at the end of the
    text and no further match exists. *)
Fixpoint sub_to_end (m : pystr -> option pystr) (s : pystr) : pystr :=
  match m s with
  | Some rest => rest
  | None =>
      match s with
      | [] => []
      | c :: t => c :: sub_to_end m t
      end
  end.

(** [\s*NSDictionary\s*$] from a start position. *)
Definition match_NSDictionary (s : pystr) : option pystr :=
  let t := lstrip s in
  if starts_with (lit "NSDictionary") t
  then match lstrip (skipn 12 t) with
       | [] => Some []
       | _ :: _ => None
       end
  else None.

(** [\s*NSMutable[A-Za-z]+\s*$] from a start position. *)
Definition match_NSMutable (s : pystr) : option pystr :=
  let t := lstrip s in
  if starts_with (lit "NSMutable") t
  then match skipn 9 t with
       | c :: r =>
           if ascii_letter c
           then match lstrip (dropwhile ascii_letter r) with
                | [] => Some []
                | _ :: _ => None
                end
           else None
       | [] => None
       end
  else None.

(** The rest of a line for [.*$]: [.] matches everything but a newline,
    and [$] matches at the end of the text or before a newline that is its
    last character. *)
Fixpoint to_line_end (skip : pychar -> bool) (s : pystr) : option pystr :=
  match s with
  | [] => Some []
  | c :: t =>
      if c =? 10 then match t with [] => Some [10] | _ :: _ => None end
      else if skip c then to_line_end skip t
      else None
  end.

(** [\s*&?__kIM[^\s]*.*$] from a start position. *)
Definition match_kIM (s : pystr) : option pystr :=
  let t := lstrip s in
  if starts_with (lit "&__kIM") t then to_line_end (fun _ => true) (skipn 6 t)
  else if starts_with (lit "__kIM") t then to_line_end (fun _ => true) (skipn 5 t)
  else None.

(** [[ij]I[^\s]*$] from a start position. *)
Definition match_ijI (s : pystr) : option pystr :=
  match s with
  | c :: d :: r =>
      if ((c =? 105) || (c =? 106)) && (d =? 73)
      then to_line_end (fun x => negb (isspace x)) r
      else None
  | _ => None
  end.

(** [re.sub(r'^[0-9](?=[a-zA-Z])', '', text)] *)
Definition sub_leading_digit (s : pystr) : pystr :=
  match s with
  | c :: ((d :: _) as t) => if ascii_digit c && ascii_letter d then t else s
  | _ => s
  end.

(** [re.sub(r'  +', ' ', text)]: every maximal run of two or more spaces
    becomes one space, that is, a space followed by a space is dropped. *)
Fixpoint sub_spaces (s : pystr) : pystr :=
  match s with
  | [] => []
  | c :: t =>
      match t with
      | d :: _ => if (c =? 32) && (d =? 32) then sub_spaces t else c :: sub_spaces t
      | [] => [c]
      end
  end.

Definition BINARY_DATA : pystr := lit "[binary data]".
Definition NO_TEXT : pystr := lit "[no text]".

Section Cleaner.

Variable U : UnicodeData.

(** [c.isprintable() or c in '\n\r\t'] *)
Definition keep_char (c : pychar) : bool :=
  isprintable U c || ((c =? 10) || (c =? 13) || (c =? 9)).

(** [text.replace(obj, '[image]')] with [obj] the one character U+FFFC. *)
Definition replace_object (s : pystr) : pystr :=
  flat_map (fun c => if c =? 0xFFFC then lit "[image]" else [c]) s.

(** The [if len(text) > 2 and text[0].isalpha():] block. *)
Definition drop_leading_letter (s : pystr) : pystr :=
  match s with
  | c0 :: ((second_char :: c2 :: _) as rest) =>
      if isalpha U c0 then
        if islower U c0 && isupper U second_char then rest
        else if str_eqb (lower U (firstn 4 rest)) (lit "http") then rest
        else if (second_char =? 105) && ((c2 =? 32) || (c2 =? 39)) then rest
        else s
      else s
  | _ => s
  end.

(** The rewriting steps of [clean_message] between the guard and the
    final [re.sub(r'  +', ' ', text)]. *)
Definition artifact_rules (text : pystr) : pystr :=
  let text := dropwhile format_code text in
  let text := sub_to_end match_NSDictionary text in
  let text := sub_to_end match_NSMutable text in
  let text := sub_to_end match_kIM text in
  let text := sub_to_end match_ijI text in
  let text := sub_leading_digit text in
  drop_leading_letter text.

Definition clean_message (text : option pystr) : option pystr :=
  match text with
  | None => None
  | Some s =>
      if negb (truthy text) || str_eqb s BINARY_DATA || str_eqb s NO_TEXT
      then text
      else
        let s := replace_object s in
        let s := filter keep_char s in
        let s := artifact_rules s in
        let s := sub_spaces s in
        Some (strip s)
  end.

End Cleaner.

(* ================================================================== *)
(** ** The classifiers *)
(* ================================================================== *)

(** [QUOTE_CHARS]: the ASCII double quote, the ASCII apostrophe, the
    double quote twice more, then U+201C, U+201D, U+2018 and U+2019. *)
Definition QUOTE_CHARS : pystr := [34; 39; 34; 34; 0x201C; 0x201D; 0x2018; 0x2019].

Definition REACTION_WORDS : list pystr :=
  map lit ["Reacted"; "Loved"; "Laughed"; "Emphasized"; "Disliked";
           "Questioned"; "Liked"]%string.

(** [re.match(r'^(w)\s', text)] for one alternative [w]. *)
Definition match_word_space (w text : pystr) : bool :=
  starts_with w text &&
  match skipn (List.length w) text with
  | c :: _ => isspace c
  | [] => false
  end.

Definition is_reaction_message (text : option pystr) : bool :=
  match text with
  | None => false
  | Some s =>
      if negb (truthy text) then false
      else existsb (fun w => match_word_space w s) REACTION_WORDS
  end.

Definition is_quoted_message (text : option pystr) : bool :=
  match text with
  | None => false
  | Some s =>
      if negb (truthy text) then false
      else
        let stripped := rstrip s in
        match rev stripped with
        | last :: _ => existsb (N.eqb last) QUOTE_CHARS
        | [] => false
        end
  end.

(* ================================================================== *)
(** ** [decode_attributed_body] *)
(* ================================================================== *)

Definition byte_val (b : byte) : N := Byte.to_N b.

Fixpoint bytes_starts_with (p s : pybytes) : bool :=
  match p, s with
  | [], _ => true
  | x :: p', y :: s' => Byte.eqb x y && bytes_starts_with p' s'
  | _ :: _, [] => false
  end.

(** [bytes.find]: the lowest index at which [sub] occurs, [-1] when it
    does not occur.  [find_at sub s i] scans [s], whose first byte has
    index [i] in the whole sequence. *)
Fixpoint find_at (sub s : pybytes) (i : Z) : Z :=
  if bytes_starts_with sub s then i
  else match s with
       | [] => (-1)%Z
       | _ :: t => find_at sub t (i + 1)%Z
       end.

(** [data.find(sub)] *)
Definition find (sub data : pybytes) : Z := find_at sub data 0%Z.

(** [data.find(sub, start)] for [0 <= start <= len(data)], the only case
    the script reaches. *)
Definition find_from (sub data : pybytes) (start : Z) : Z :=
  find_at sub (skipn (Z.to_nat start) data) start.

(** [sub in data] *)
Definition contains (sub data : pybytes) : bool := (0 <=? find sub data)%Z.

(** [len(data)] *)
Definition len (data : pybytes) : Z := Z.of_nat (List.length data).

(** [data[i:j]] for [0 <= i <= j]. *)
Definition slice (data : pybytes) (i j : Z) : pybytes :=
  firstn (Z.to_nat (j - i)) (skipn (Z.to_nat i) data).

(** A UTF-8 continuation byte, 0x80 to 0xBF. *)
Definition is_cont (b : N) : bool := (0x80 <=? b) && (b <? 0xC0).

(** [bytes.decode('utf-8', errors='ignore')], after CPython's decoder: a
    well-formed sequence yields its code point; at an ill-formed one the
    decoder drops the bytes read so far (one for an invalid start byte,
    the start byte and the continuation bytes accepted so far for an
    invalid continuation) and resumes at the next byte; a sequence cut
    short by the end of the data is dropped whole. *)
Fixpoint utf8_decode_ignore (bs : pybytes) : pystr :=
  match bs with
  | [] => []
  | b1 :: t1 =>
    let ch := byte_val b1 in
    if ch <? 0x80 then ch :: utf8_decode_ignore t1
    else if ch <? 0xC2 then utf8_decode_ignore t1
    else if ch <? 0xE0 then
      match t1 with
      | [] => []
      | b2 :: t2 =>
        let ch2 := byte_val b2 in
        if is_cont ch2
        then ((ch - 0xC0) * 64 + (ch2 - 0x80)) :: utf8_decode_ignore t2
        else utf8_decode_ignore t1
      end
    else if ch <? 0xF0 then
      match t1 with
      | [] => []
      | b2 :: t2 =>
        let ch2 := byte_val b2 in
        if negb (is_cont ch2)
           || (if ch2 <? 0xA0 then ch =? 0xE0 else ch =? 0xED)
        then utf8_decode_ignore t1
        else
          match t2 with
          | [] => []
          | b3 :: t3 =>
            let ch3 := byte_val b3 in
            if is_cont ch3
            then ((ch - 0xE0) * 4096 + (ch2 - 0x80) * 64 + (ch3 - 0x80))
                 :: utf8_decode_ignore t3
            else utf8_decode_ignore t2
          end
      end
    else if ch <? 0xF5 then
      match t1 with
      | [] => []
      | b2 :: t2 =>
        let ch2 := byte_val b2 in
        if negb (is_cont ch2)
           || (if ch2 <? 0x90 then ch =? 0xF0 else ch =? 0xF4)
        then utf8_decode_ignore t1
        else
          match t2 with
          | [] => []
          | b3 :: t3 =>
            let ch3 := byte_val b3 in
            if negb (is_cont ch3) then utf8_decode_ignore t2
            else
              match t3 with
              | [] => []
              | b4 :: t4 =>
                let ch4 := byte_val b4 in
                if is_cont ch4
                then ((ch - 0xF0) * 262144 + (ch2 - 0x80) * 4096
                      + (ch3 - 0x80) * 64 + (ch4 - 0x80))
                     :: utf8_decode_ignore t4
                else utf8_decode_ignore t3
              end
          end
      end
    else utf8_decode_ignore t1
  end.

(** What the [try] block of method 1 does on a blob: it raises, or the
    unarchived object has no usable [string], or [str(obj.string())] is
    the given text. *)
Inductive unarchived :=
| Raises
| NoString
| HasString (text : pystr).

(** The PyObjC binding: [None] when the import failed
    ([PYOBJC_AVAILABLE = False]), else the unarchiver of the platform. *)
Definition PyObjC := option (pybytes -> unarchived).

Definition NSString : pybytes := blit "NSString".

Section Decoder.

Variable U : UnicodeData.
Variable objc : PyObjC.

(** Method 1: PyObjC.  The bare [except] swallows every exception. *)
Definition method_pyobjc (data : pybytes) : option pystr :=
  match objc with
  | None => None
  | Some unarchive =>
      match unarchive data with
      | HasString text => if truthy (Some text) then Some text else None
      | NoString => None
      | Raises => None
      end
  end.

(** Method 2: NSString marker. *)
Definition method_marker (data : pybytes) : option pystr :=
  if contains NSString data then
    let idx := (find NSString data + 8)%Z in
    if (idx <? len data)%Z then
      let end_idx := find_from [x00%byte] data idx in
      if (end_idx >? idx)%Z then
        let text := utf8_decode_ignore (slice data idx end_idx) in
        if truthy (Some text) then Some text else None
      else None
    else None
  else None.

(** Method 3: Direct UTF-8. *)
Definition method_direct (data : pybytes) : option pystr :=
  let offset := 50%Z in
  if (len data >? offset)%Z then
    let potential := utf8_decode_ignore (skipn (Z.to_nat offset) data) in
    let cleaned := filter (keep_char U) potential in
    if truthy (Some cleaned) then Some (strip cleaned) else None
  else None.

Definition decode_attributed_body (data : pybytes) : option pystr :=
  match data with
  | [] => None
  | _ :: _ =>
      match method_pyobjc data with
      | Some text => Some text
      | None =>
          match method_marker data with
          | Some text => Some text
          | None =>
              match method_direct data with
              | Some text => Some text
              | None => Some BINARY_DATA
              end
          end
      end
  end.

End Decoder.

(* ================================================================== *)
(** ** The per-row dispatch of [create_clean_database] *)
(* ================================================================== *)

(** A row of the [SELECT] over [message]; a SQL [NULL] is [None]. *)
Record message_row := {
  m_ROWID : Z;
  m_guid : option pystr;
  m_text : option pystr;
  m_attributedBody : option pybytes;
  m_date : option Z;
  m_is_from_me : option Z;
  m_is_read : option Z;
  m_is_delivered : option Z;
  m_is_sent : option Z;
  m_cache_has_attachments : option Z;
  m_service : option pystr;
  m_handle_id : option Z;
  m_associated_message_type : option Z
}.

(** Truthiness of [row[3]]: [None] and [b''] are falsy. *)
Definition blob_truthy (b : option pybytes) : bool :=
  match b with
  | None => false
  | Some [] => false
  | Some (_ :: _) => true
  end.

Section Transformer.

Variable U : UnicodeData.
Variable objc : PyObjC.

(** The variable [decoded] of the loop body. *)
Definition decoded (row : message_row) : option pystr :=
  if truthy (m_text row) then m_text row
  else
    match m_attributedBody row with
    | Some blob =>
        if blob_truthy (Some blob) then decode_attributed_body U objc blob
        else Some []
    | None => Some []
    end.

(** [clean_message(decoded) if decoded else ''] *)
Definition clean_or_empty (d : option pystr) : option pystr :=
  if truthy d then clean_message U d else Some [].

(** The variable [cleaned] of the loop body, stored as [decoded_text]. *)
Definition cleaned (row : message_row) : option pystr :=
  clean_or_empty (decoded row).

(** [1 if is_reaction_message(cleaned) else 0] *)
Definition reaction (row : message_row) : Z :=
  if is_reaction_message (cleaned row) then 1%Z else 0%Z.

(** [1 if is_quoted_message(cleaned) else 0] *)
Definition quote (row : message_row) : Z :=
  if is_quoted_message (cleaned row) then 1%Z else 0%Z.

End Transformer.

(* ================================================================== *)
(** ** [apple_to_unix] *)
(* ================================================================== *)

Local Open Scope Z_scope.

Definition APPLE_EPOCH : Z := 978307200.

(** A finite binary64 value, represented by the rational it denotes:
    [fnum / fden] with [fden] a positive power of two.  The timestamp
    column is a SQLite INTEGER (64 bits), so neither overflow nor
    subnormal numbers arise in [apple_to_unix] and they are not
    represented. *)
Record binary64 := { fnum : Z; fden : Z }.

(** The nearest integer to [n / d] for [0 <= n] and [0 < d], a tie going
    to the even one. *)
Definition round_half_even (n d : Z) : Z :=
  let q := n / d in
  let r := n mod d in
  if 2 * r <? d then q
  else if d <? 2 * r then q + 1
  else if Z.even q then q else q + 1.

(** [n / (d * 2^e)] as a fraction of integers. *)
Definition scale (n d e : Z) : Z * Z :=
  if 0 <=? e then (n, d * 2 ^ e) else (n * 2 ^ (- e), d).

(** The exponent [e] of the last place of [n / d] in binary64 ([0 < n],
    [0 < d]): the one with [2^52 <= n / (d * 2^e) < 2^53]. *)
Definition ulp_exponent (n d : Z) : Z :=
  let e := Z.log2 n - Z.log2 d - 53 in
  let (sn, sd) := scale n d e in
  if sn / sd <? 2 ^ 53 then e else e + 1.

(** Rounding of the positive rational [n / d] to binary64, to nearest,
    ties to even: the rounding of every IEEE 754 operation. *)
Definition round_pos (n d : Z) : binary64 :=
  let e := ulp_exponent n d in
  let (sn, sd) := scale n d e in
  let m := round_half_even sn sd in
  if 0 <=? e then {| fnum := m * 2 ^ e; fden := 1 |}
  else {| fnum := m; fden := 2 ^ (- e) |}.

Definition fneg (x : binary64) : binary64 := {| fnum := - fnum x; fden := fden x |}.

(** Rounding of the rational [n / d], [0 < d]. *)
Definition round64 (n d : Z) : binary64 :=
  if n =? 0 then {| fnum := 0; fden := 1 |}
  else if 0 <? n then round_pos n d
  else fneg (round_pos (- n) d).

(** [a / b] on Python integers with [0 < b]: the correctly rounded
    quotient. *)
Definition true_divide (a b : Z) : binary64 := round64 a b.

(** [x + k] for a binary64 [x] and an integer [k] that binary64 represents
    exactly: the correctly rounded sum. *)
Definition float_add_int (x : binary64) (k : Z) : binary64 :=
  round64 (fnum x + k * fden x) (fden x).

(** [int(x)]: truncation toward zero. *)
Definition int_of_float (x : binary64) : Z := Z.quot (fnum x) (fden x).

Definition apple_to_unix (timestamp : option Z) : option Z :=
  match timestamp with
  | None => None
  | Some ts =>
      if ts =? 0 then None
      else Some (int_of_float
                   (float_add_int (true_divide ts 1000000000) APPLE_EPOCH))
  end.

(* ================================================================== *)
(** ** Vocabulary of the statements *)
(* ================================================================== *)

Local Open Scope N_scope.

(** The quote characters named by the documentation of [QUOTE_CHARS]. *)
Definition quote_char (q : pychar) : Prop :=
  q = 34 \/ q = 39 \/ q = 0x201C \/ q = 0x201D \/ q = 0x2018 \/ q = 0x2019.

(** No run of two or more spaces. *)
Definition double_space_free (t : pystr) : Prop :=
  forall a b, t <> a ++ 32 :: 32 :: b.

(** The same as a test. *)
Fixpoint has_double_space (t : pystr) : bool :=
  match t with
  | c :: ((d :: _) as r) => ((c =? 32) && (d =? 32)) || has_double_space r
  | _ => false
  end.

(** No whitespace at either end. *)
Definition trimmed (t : pystr) : Prop :=
  (forall c r, t = c :: r -> isspace c = false)
  /\ (forall r c, t = r ++ [c] -> isspace c = false).

(** The text after the guard: what [clean_message] returns on a string
    that is neither empty nor a sentinel. *)
Definition rewritten (U : UnicodeData) (s : pystr) : pystr :=
  strip (sub_spaces (artifact_rules U (filter (keep_char U) (replace_object s)))).

(** What a matcher leaves after the match is made of characters of the
    text. *)
Definition removes_only (m : pystr -> option pystr) : Prop :=
  forall s r, m s = Some r -> incl r s.

(** The text before normalization in the words of the specification:
    the plain text when it is present and not empty, else the decoder's
    output when a blob is present, else the empty string. *)
Definition spec_source_text
  (U : UnicodeData) (objc : PyObjC) (row : message_row) : option pystr :=
  match m_text row with
  | Some (c :: t) => Some (c :: t)
  | _ =>
      match m_attributedBody row with
      | Some blob => decode_attributed_body U objc blob
      | None => Some []
      end
  end.

(** A row with both a plain text and a blob that decodes to another text. *)
Definition both_row : message_row := {|
  m_ROWID := 1%Z;
  m_guid := None;
  m_text := Some (lit "plain");
  m_attributedBody := Some (NSString ++ blit "blob" ++ [x00%byte]);
  m_date := Some 0%Z;
  m_is_from_me := Some 0%Z;
  m_is_read := Some 1%Z;
  m_is_delivered := Some 1%Z;
  m_is_sent := Some 0%Z;
  m_cache_has_attachments := Some 0%Z;
  m_service := Some (lit "iMessage");
  m_handle_id := Some 1%Z;
  m_associated_message_type := Some 0%Z
|}.

Local Open Scope Z_scope.

(** The value of [x] lies between the integers [lo] and [lo + 1]. *)
Definition between (lo : Z) (x : binary64) : Prop :=
  0 < fden x /\ lo * fden x <= fnum x <= (lo + 1) * fden x.

(** The same computation on the binary64 unit of the machine, for a
    timestamp below [2^53], where both operands of the division convert
    to binary64 without rounding. *)
Definition machine_sum (ts : Z) : SpecFloat.spec_float :=
  FloatOps.Prim2SF
    (PrimFloat.add
       (PrimFloat.div (PrimFloat.of_uint63 (Uint63.of_Z ts))
                      (PrimFloat.of_uint63 (Uint63.of_Z 1000000000)))
       (PrimFloat.of_uint63 (Uint63.of_Z APPLE_EPOCH))).

(** [x] denotes the rational of the machine value [f]. *)
Definition same_value (x : binary64) (f : SpecFloat.spec_float) : bool :=
  match f with
  | SpecFloat.S754_finite sign m e =>
      let v := if sign then Z.neg m else Z.pos m in
      if 0 <=? e then fnum x =? v * 2 ^ e * fden x
      else fnum x * 2 ^ (- e) =? v * fden x
  | SpecFloat.S754_zero _ => fnum x =? 0
  | _ => false
  end.

Local Open Scope N_scope.

(** [l1] is [l2] with some of its elements removed, the others in their
    order. *)
Inductive subseq {A : Type} : list A -> list A -> Prop :=
| subseq_nil : subseq [] []
| subseq_skip x l1 l2 : subseq l1 l2 -> subseq l1 (x :: l2)
| subseq_keep x l1 l2 : subseq l1 l2 -> subseq (x :: l1) (x :: l2).

(** A matcher leaves a piece of the text it was given. *)
Definition leaves_piece (m : pystr -> option pystr) : Prop :=
  forall s r, m s = Some r -> subseq r s.

(** The characters [clean_message] lets through: printable or one of
    newline, carriage return and tab, and not U+FFFC. *)
Definition clean_char (U : UnicodeData) (c : pychar) : Prop :=
  (isprintable U c = true \/ c = 10 \/ c = 13 \/ c = 9) /\ c <> 0xFFFC.

Local Open Scope N_scope.

(** A row whose only content is a short blob without the marker. *)
Definition junk_row : message_row := {|
  m_ROWID := 7%Z;
  m_guid := Some (lit "G-7");
  m_text := None;
  m_attributedBody := Some (blit "bplist00 junk");
  m_date := Some 694224000000000000%Z;
  m_is_from_me := Some 1%Z;
  m_is_read := Some 0%Z;
  m_is_delivered := Some 1%Z;
  m_is_sent := Some 1%Z;
  m_cache_has_attachments := Some 0%Z;
  m_service := Some (lit "SMS");
  m_handle_id := Some 0%Z;
  m_associated_message_type := Some 0%Z
|}.

(** A row with an empty text and a blob without bytes. *)
Definition blank_row : message_row := {|
  m_ROWID := 8%Z;
  m_guid := None;
  m_text := Some [];
  m_attributedBody := Some [];
  m_date := None;
  m_is_from_me := Some 0%Z;
  m_is_read := Some 0%Z;
  m_is_delivered := Some 0%Z;
  m_is_sent := Some 0%Z;
  m_cache_has_attachments := Some 1%Z;
  m_service := None;
  m_handle_id := None;
  m_associated_message_type := None
|}.

Local Open Scope Z_scope.

(** The values of two binary64 compared as fractions. *)
Definition fle (x y : binary64) : Prop := fnum x * fden y <= fnum y * fden x.

(* ================================================================== *)
(** ** [main] *)
(* ================================================================== *)

Local Open Scope N_scope.

(** [s.split(',')]: the fields between the commas, at least one. *)
Fixpoint split_comma (s : pystr) : list pystr :=
  match s with
  | [] => [[]]
  | c :: t =>
      if c =? 44 then [] :: split_comma t
      else match split_comma t with
           | field :: fields => (c :: field) :: fields
           | [] => [[c]]
           end
  end.

(** What [main] finds outside the program: the home directory expansion,
    the file system, the source database ([connect] tells whether
    [sqlite3.connect] and [cursor()] succeed, [chat_rowids] is the result
    of [get_all_chat_ids], [None] when the query raises), and [int] on a
    string, [None] for a [ValueError]. *)
Record Environment := {
  expanduser : pystr -> pystr;
  path_exists : pystr -> bool;
  connect : pystr -> bool;
  chat_rowids : pystr -> option (list Z);
  py_int : pystr -> option Z
}.

(** How [main] ends: one of its three [sys.exit(1)], an exception that
    leaves it, or the call of [create_clean_database]. *)
Inductive outcome :=
| ExitUsage
| ExitSourceNotFound (source_db : pystr)
| ExitNoChatIds
| Raised
| Created (source_db target_db : pystr) (chat_ids : list Z).

(** [[f(x) for x in xs]] for an [f] that may raise: the first exception
    ends the comprehension. *)
Fixpoint comprehension {A B} (f : A -> option B) (xs : list A) : option (list B) :=
  match xs with
  | [] => Some []
  | x :: t =>
      match f x with
      | None => None
      | Some y =>
          match comprehension f t with
          | None => None
          | Some ys => Some (y :: ys)
          end
      end
  end.

Section Main.

Variable U : UnicodeData.
Variable env : Environment.

(** [[int(x.strip()) for x in chat_ids_arg.split(',')]] *)
Definition parse_chat_ids (chat_ids_arg : pystr) : option (list Z) :=
  comprehension (fun x => py_int env (strip x)) (split_comma chat_ids_arg).

Definition main (argv : list pystr) : outcome :=
  match argv with
  | _ :: arg1 :: arg2 :: chat_ids_arg :: _ =>
      let source_db := expanduser env arg1 in
      let target_db := expanduser env arg2 in
      if negb (path_exists env source_db) then ExitSourceNotFound source_db
      else if negb (connect env source_db) then Raised
      else
        match (if str_eqb (lower U chat_ids_arg) (lit "all")
               then chat_rowids env source_db
               else parse_chat_ids chat_ids_arg) with
        | None => Raised
        | Some [] => ExitNoChatIds
        | Some (id :: ids) => Created source_db target_db (id :: ids)
        end
  | _ => ExitUsage
  end.

End Main.

(** An environment for the examples: no home directory expansion, one
    file [chat.db] holding the chats 1, 2 and 3, and [int] on one
    decimal digit. *)
Definition example_env : Environment := {|
  expanduser := fun p => p;
  path_exists := fun p => str_eqb p (lit "chat.db");
  connect := fun _ => true;
  chat_rowids := fun _ => Some [1; 2; 3]%Z;
  py_int := fun s =>
    match s with
    | [c] => if ascii_digit c then Some (Z.of_N (c - 48)) else None
    | _ => None
    end
|}.

Local Open Scope N_scope.

(** The byte with value [n], for [n < 256]. *)
Definition byte_of (n : N) : byte :=
  match Byte.of_N n with
  | Some b => b
  | None => x00%byte
  end.

(** The UTF-8 encoding of one code point, as the Unicode standard
    defines it and as [str.encode('utf-8')] produces it. *)
Definition utf8_encode_char (c : pychar) : pybytes :=
  if c <? 0x80 then [byte_of c]
  else if c <? 0x800 then
    [byte_of (0xC0 + c / 64); byte_of (0x80 + c mod 64)]
  else if c <? 0x10000 then
    [byte_of (0xE0 + c / 4096); byte_of (0x80 + (c / 64) mod 64);
     byte_of (0x80 + c mod 64)]
  else
    [byte_of (0xF0 + c / 262144); byte_of (0x80 + (c / 4096) mod 64);
     byte_of (0x80 + (c / 64) mod 64); byte_of (0x80 + c mod 64)].

(** [text.encode('utf-8')] *)
Definition utf8_encode (s : pystr) : pybytes := flat_map utf8_encode_char s.

(** A code point that a Python string can hold and UTF-8 can encode: up
    to U+10FFFF and not a surrogate. *)
Definition scalar_value (c : pychar) : Prop :=
  c <= 0x10FFFF /\ ~ (0xD800 <= c <= 0xDFFF).

(* ================================================================== *)
(** * Properties *)
(* ================================================================== *)

Local Open Scope N_scope.

(** ** Lists, prefixes and stripping *)

Section ListFacts.

Context {A : Type} (p : A -> bool).

Lemma dropwhile_split (l : list A) :
  exists a, l = a ++ dropwhile p l /\ Forall (fun x => p x = true) a.
Proof.
  induction l as [|x l IH]; simpl.
  - exists []. split; [reflexivity | constructor].
  - destruct (p x) eqn:Hx.
    + destruct IH as [a [E F]]. exists (x :: a). split.
      * simpl. now rewrite <- E.
      * now constructor.
    + exists []. split; [reflexivity | constructor].
Qed.

Lemma dropwhile_head (l : list A) x r :
  dropwhile p l = x :: r -> p x = false.
Proof.
  induction l as [|y l IH]; simpl; [discriminate|].
  destruct (p y) eqn:Hy; [exact IH|].
  intros E. injection E as -> _. exact Hy.
Qed.

Lemma dropwhile_all (l : list A) :
  Forall (fun x => p x = true) l -> dropwhile p l = [].
Proof.
  induction 1 as [|x l Hx _ IH]; simpl; [reflexivity|].
  now rewrite Hx.
Qed.

Lemma dropwhile_stop (a : list A) x r :
  Forall (fun y => p y = true) a -> p x = false ->
  dropwhile p (a ++ x :: r) = x :: r.
Proof.
  induction 1 as [|y a Hy _ IH]; simpl; intros Hx.
  - now rewrite Hx.
  - rewrite Hy. now apply IH.
Qed.

Lemma dropwhile_fixed (l : list A) :
  (forall x r, l = x :: r -> p x = false) -> dropwhile p l = l.
Proof.
  destruct l as [|x l]; simpl; [reflexivity|].
  intros H. now rewrite (H x l eq_refl).
Qed.

Lemma Forall_dropwhile (P : A -> Prop) (l : list A) :
  Forall P l -> Forall P (dropwhile p l).
Proof.
  induction 1 as [|x l Hx Hl IH]; simpl; [constructor|].
  destruct (p x); [exact IH | now constructor].
Qed.

End ListFacts.

Lemma starts_with_app (p r : pystr) : starts_with p (p ++ r) = true.
Proof.
  induction p as [|x p IH]; simpl; [reflexivity|].
  now rewrite N.eqb_refl.
Qed.

Lemma starts_with_inv (p s : pystr) :
  starts_with p s = true -> s = p ++ skipn (List.length p) s.
Proof.
  revert s. induction p as [|x p IH]; intros s; simpl; [reflexivity|].
  destruct s as [|y s]; [discriminate|].
  intros H. apply andb_true_iff in H. destruct H as [E H].
  apply N.eqb_eq in E. subst y. f_equal. now apply IH.
Qed.

Lemma skipn_length_app {A} (p r : list A) : skipn (List.length p) (p ++ r) = r.
Proof. induction p; simpl; auto. Qed.

Lemma str_eqb_eq (a b : pystr) : str_eqb a b = true <-> a = b.
Proof.
  revert b. induction a as [|x a IH]; intros [|y b]; simpl;
    try (split; [discriminate | discriminate]); [tauto|].
  rewrite andb_true_iff, N.eqb_eq, IH. split.
  - intros [-> ->]. reflexivity.
  - intros E. injection E as -> ->. tauto.
Qed.

Lemma rstrip_split (s : pystr) :
  exists ws, s = rstrip s ++ ws /\ Forall (fun c => isspace c = true) ws.
Proof.
  unfold rstrip.
  destruct (dropwhile_split isspace (rev s)) as [a [E F]].
  exists (rev a). split.
  - rewrite <- rev_app_distr, <- E. now rewrite rev_involutive.
  - now apply Forall_rev.
Qed.

Lemma rstrip_last (s r : pystr) c : rstrip s = r ++ [c] -> isspace c = false.
Proof.
  unfold rstrip. intros E.
  apply (f_equal (@rev _)) in E.
  rewrite rev_involutive, rev_app_distr in E. simpl in E.
  now apply dropwhile_head in E.
Qed.

Lemma rstrip_stop (body ws : pystr) q :
  isspace q = false -> Forall (fun c => isspace c = true) ws ->
  rstrip (body ++ q :: ws) = body ++ [q].
Proof.
  intros Hq Hws. unfold rstrip.
  rewrite rev_app_distr. simpl. rewrite <- app_assoc. simpl.
  rewrite dropwhile_stop; auto using Forall_rev.
  change (q :: rev body) with ([q] ++ rev body).
  rewrite rev_app_distr, rev_involutive. reflexivity.
Qed.

Lemma rstrip_fixed (s : pystr) :
  (forall r c, s = r ++ [c] -> isspace c = false) -> rstrip s = s.
Proof.
  intros H. unfold rstrip. rewrite dropwhile_fixed.
  - apply rev_involutive.
  - intros x r E. apply (H (rev r) x).
    apply (f_equal (@rev _)) in E. rewrite rev_involutive in E.
    rewrite E. reflexivity.
Qed.

Lemma lstrip_head (s r : pystr) c : lstrip s = c :: r -> isspace c = false.
Proof. apply dropwhile_head. Qed.

(** [strip] cuts a piece out of the middle of the text. *)
Lemma strip_split (s : pystr) :
  exists a b, s = a ++ strip s ++ b.
Proof.
  unfold strip, lstrip.
  destruct (dropwhile_split isspace s) as [a [E _]].
  destruct (rstrip_split (dropwhile isspace s)) as [b [E' _]].
  exists a, b. now rewrite <- E', <- E.
Qed.

Lemma strip_head (s r : pystr) c : strip s = c :: r -> isspace c = false.
Proof.
  unfold strip. intros E.
  destruct (rstrip_split (lstrip s)) as [ws [E' _]].
  rewrite E in E'. simpl in E'. now apply lstrip_head in E'.
Qed.

Lemma strip_last (s r : pystr) c : strip s = r ++ [c] -> isspace c = false.
Proof. apply rstrip_last. Qed.

Lemma strip_fixed (s : pystr) :
  (forall c r, s = c :: r -> isspace c = false) ->
  (forall r c, s = r ++ [c] -> isspace c = false) ->
  strip s = s.
Proof.
  intros H1 H2. unfold strip, lstrip.
  rewrite dropwhile_fixed by exact H1. now apply rstrip_fixed.
Qed.

(* ================================================================== *)
(** ** The classifiers *)
(* ================================================================== *)

Lemma match_word_space_spec (w text : pystr) :
  match_word_space w text = true <->
  exists c rest, text = w ++ c :: rest /\ isspace c = true.
Proof.
  unfold match_word_space. rewrite andb_true_iff. split.
  - intros [Hs Hc]. apply starts_with_inv in Hs.
    destruct (skipn (List.length w) text) as [|c rest]; [discriminate|].
    now exists c, rest.
  - intros (c & rest & -> & Hc).
    rewrite starts_with_app, skipn_length_app. now split.
Qed.

(** C7.  [is_reaction_message] holds exactly of the texts that begin with
    one of the seven reaction words, spelled with that case, immediately
    followed by a whitespace character; [None] and the empty string are
    not reactions. *)
Theorem is_reaction_message_spec :
  (forall s : pystr,
      is_reaction_message (Some s) = true <->
      exists w c rest,
        In w (map lit ["Reacted"; "Loved"; "Laughed"; "Emphasized";
                       "Disliked"; "Questioned"; "Liked"]%string)
        /\ isspace c = true /\ s = w ++ c :: rest)
  /\ is_reaction_message None = false
  /\ is_reaction_message (Some []) = false.
Proof.
  split; [|split; reflexivity].
  intros s. change (map lit _) with REACTION_WORDS. split.
  - destruct s as [|c0 s]; [discriminate|].
    unfold is_reaction_message. simpl truthy. simpl negb. cbv iota.
    intros H. apply existsb_exists in H. destruct H as (w & Hin & Hm).
    apply match_word_space_spec in Hm. destruct Hm as (c & rest & E & Hc).
    exists w, c, rest. auto.
  - intros (w & c & rest & Hin & Hc & ->).
    assert (Hm : match_word_space w (w ++ c :: rest) = true)
      by (apply match_word_space_spec; eauto).
    unfold is_reaction_message.
    destruct (w ++ c :: rest) as [|x y] eqn:E.
    + destruct w; discriminate.
    + simpl truthy. simpl negb. cbv iota.
      apply existsb_exists. exists w. auto.
Qed.

Lemma QUOTE_CHARS_spec (q : pychar) :
  existsb (N.eqb q) QUOTE_CHARS = true <-> quote_char q.
Proof.
  unfold QUOTE_CHARS, quote_char. simpl.
  rewrite !orb_true_iff, !N.eqb_eq. intuition congruence.
Qed.

Lemma quote_char_not_space (q : pychar) : quote_char q -> isspace q = false.
Proof.
  unfold quote_char. intros H.
  repeat (destruct H as [-> | H]; [reflexivity|]). now subst.
Qed.

(** C8.  [is_quoted_message] holds exactly of the texts that are a body,
    one quote character and then whitespace only: the last character left
    by trimming trailing whitespace is a quote character.  [None], the
    empty string and whitespace-only texts are not quoted. *)
Theorem is_quoted_message_spec :
  (forall s : pystr,
      is_quoted_message (Some s) = true <->
      exists body q ws,
        s = body ++ q :: ws /\ quote_char q
        /\ Forall (fun c => isspace c = true) ws)
  /\ is_quoted_message None = false
  /\ is_quoted_message (Some []) = false
  /\ (forall s, Forall (fun c => isspace c = true) s ->
                is_quoted_message (Some s) = false).
Proof.
  assert (Hiff : forall s : pystr,
      is_quoted_message (Some s) = true <->
      exists body q ws,
        s = body ++ q :: ws /\ quote_char q
        /\ Forall (fun c => isspace c = true) ws).
  { intros s. split.
    - destruct s as [|c0 s0]; [discriminate|].
      unfold is_quoted_message. simpl truthy. simpl negb. cbv iota.
      set (s := c0 :: s0).
      destruct (rstrip_split s) as [ws [E F]].
      destruct (rev (rstrip s)) as [|q r] eqn:Er; [discriminate|].
      intros H. apply QUOTE_CHARS_spec in H.
      apply (f_equal (@rev _)) in Er. rewrite rev_involutive in Er.
      simpl in Er. exists (rev r), q, ws. repeat split; auto.
      rewrite E at 1. rewrite Er, <- app_assoc. reflexivity.
    - intros (body & q & ws & -> & Hq & Hws).
      unfold is_quoted_message.
      destruct (body ++ q :: ws) as [|x y] eqn:E.
      + destruct body; discriminate.
      + simpl truthy. simpl negb. cbv iota. rewrite <- E.
        rewrite rstrip_stop by auto using quote_char_not_space.
        rewrite rev_app_distr. simpl. now apply QUOTE_CHARS_spec. }
  split; [exact Hiff|]. split; [reflexivity|]. split; [reflexivity|].
  intros s Hs. destruct (is_quoted_message (Some s)) eqn:E; [|reflexivity].
  apply Hiff in E. destruct E as (body & q & ws & -> & Hq & _).
  apply Forall_app in Hs. destruct Hs as [_ Hs].
  inversion Hs as [|? ? Hq' _]. subst.
  rewrite (quote_char_not_space Hq) in Hq'. discriminate.
Qed.

(* ================================================================== *)
(** ** [clean_message]: the guard and the shape of the result *)
(* ================================================================== *)

(** C9.  [clean_message] returns [None], ['[binary data]'] and
    ['[no text]'] as they are. *)
Theorem clean_message_passthrough (U : UnicodeData) :
  clean_message U None = None
  /\ clean_message U (Some BINARY_DATA) = Some BINARY_DATA
  /\ clean_message U (Some NO_TEXT) = Some NO_TEXT.
Proof. repeat split. Qed.

Lemma has_double_space_false (t : pystr) :
  has_double_space t = false -> double_space_free t.
Proof.
  induction t as [|c t IH]; intros H a b E.
  - destruct a; discriminate.
  - destruct t as [|d t]; [destruct a as [|? [|? ?]]; discriminate|].
    simpl in H. apply orb_false_iff in H. destruct H as [Hcd Hr].
    destruct a as [|x a]; simpl in E.
    + injection E as -> -> _. discriminate.
    + injection E as _ E. exact (IH Hr a b E).
Qed.

Lemma double_space_free_tail c (t : pystr) :
  double_space_free (c :: t) -> double_space_free t.
Proof. intros H a b E. apply (H (c :: a) b). simpl. now rewrite E. Qed.

Lemma double_space_free_piece (a t b : pystr) :
  double_space_free (a ++ t ++ b) -> double_space_free t.
Proof.
  intros H x y E. apply (H (a ++ x) (y ++ b)).
  rewrite E. rewrite <- !app_assoc. reflexivity.
Qed.

Lemma sub_spaces_head (s : pystr) : hd_error (sub_spaces s) = hd_error s.
Proof.
  induction s as [|c t IH]; [reflexivity|].
  destruct t as [|d t]; [reflexivity|].
  change (sub_spaces (c :: d :: t))
    with (if (c =? 32) && (d =? 32) then sub_spaces (d :: t)
          else c :: sub_spaces (d :: t)).
  destruct ((c =? 32) && (d =? 32)) eqn:E; [|reflexivity].
  rewrite IH. apply andb_true_iff in E. destruct E as [E1 E2].
  apply N.eqb_eq in E1, E2. now subst.
Qed.

Lemma sub_spaces_free (s : pystr) : double_space_free (sub_spaces s).
Proof.
  induction s as [|c t IH]; intros a b E.
  - destruct a; discriminate.
  - destruct t as [|d t]; [destruct a as [|? [|? ?]]; discriminate|].
    change (sub_spaces (c :: d :: t))
      with (if (c =? 32) && (d =? 32) then sub_spaces (d :: t)
            else c :: sub_spaces (d :: t)) in E.
    destruct ((c =? 32) && (d =? 32)) eqn:Hcd; [exact (IH a b E)|].
    destruct a as [|x a]; cbn [app] in E.
    + pose proof (sub_spaces_head (d :: t)) as Hh.
      destruct (sub_spaces (d :: t)) as [|y r]; [discriminate|].
      injection E as E1 E2 E3. simpl in Hh. injection Hh as Hh.
      subst. discriminate.
    + injection E as _ E. exact (IH a b E).
Qed.

Lemma sub_spaces_fixed (t : pystr) : double_space_free t -> sub_spaces t = t.
Proof.
  induction t as [|c t IH]; intros H; [reflexivity|].
  destruct t as [|d t]; [reflexivity|].
  change (sub_spaces (c :: d :: t))
    with (if (c =? 32) && (d =? 32) then sub_spaces (d :: t)
          else c :: sub_spaces (d :: t)).
  destruct ((c =? 32) && (d =? 32)) eqn:Hcd.
  - apply andb_true_iff in Hcd. destruct Hcd as [E1 E2].
    apply N.eqb_eq in E1, E2. subst. now destruct (H [] t).
  - f_equal. apply IH. now apply double_space_free_tail in H.
Qed.

Lemma clean_message_cases (U : UnicodeData) (s : pystr) :
  (clean_message U (Some s) = Some s
   /\ (s = [] \/ s = BINARY_DATA \/ s = NO_TEXT))
  \/ (clean_message U (Some s) = Some (rewritten U s)
      /\ s <> [] /\ s <> BINARY_DATA /\ s <> NO_TEXT).
Proof.
  unfold clean_message, rewritten.
  destruct s as [|c s].
  - left. auto.
  - simpl truthy. simpl negb. rewrite orb_false_l.
    destruct (str_eqb (c :: s) BINARY_DATA) eqn:E1.
    + left. apply str_eqb_eq in E1. auto.
    + destruct (str_eqb (c :: s) NO_TEXT) eqn:E2.
      * left. apply str_eqb_eq in E2. auto.
      * right. simpl. repeat split; try discriminate.
        -- intros E. apply str_eqb_eq in E. congruence.
        -- intros E. apply str_eqb_eq in E. congruence.
Qed.

Lemma trimmed_by_ends (t : pystr) :
  match t with [] => true | c :: _ => negb (isspace c) end = true ->
  match rev t with [] => true | c :: _ => negb (isspace c) end = true ->
  trimmed t.
Proof.
  intros H1 H2. split.
  - intros c r ->. now apply negb_true_iff in H1.
  - intros r c ->. rewrite rev_app_distr in H2. simpl in H2.
    now apply negb_true_iff in H2.
Qed.

(** The shape of what [clean_message] returns on a string. *)
Lemma clean_message_result (U : UnicodeData) (s : pystr) :
  exists t,
    clean_message U (Some s) = Some t
    /\ trimmed t /\ double_space_free t.
Proof.
  destruct (clean_message_cases U s) as [[E H] | [E _]]; rewrite E.
  - exists s. split; [reflexivity|].
    assert (Hs : trimmed s /\ double_space_free s).
    { destruct H as [-> | [-> | ->]];
        (split; [apply trimmed_by_ends; reflexivity
                | apply has_double_space_false; reflexivity]). }
    exact Hs.
  - exists (rewritten U s). split; [reflexivity|]. unfold rewritten.
    set (x := sub_spaces _).
    split; [split|].
    + intros c r. apply strip_head.
    + intros r c. apply strip_last.
    + destruct (strip_split x) as (a & b & Ex).
      apply double_space_free_piece with (a := a) (b := b).
      rewrite <- Ex. apply sub_spaces_free.
Qed.

(** C10.  The string returned by [clean_message] has no whitespace at
    either end and no two consecutive spaces.  This holds of every input
    string: of the rewritten ones by the last two steps, and of the empty
    string and the two sentinels because they have that shape. *)
Theorem clean_message_shape (U : UnicodeData) (s : pystr) :
  exists t,
    clean_message U (Some s) = Some t
    /\ (forall c r, t = c :: r -> isspace c = false)
    /\ (forall r c, t = r ++ [c] -> isspace c = false)
    /\ (forall a b, t <> a ++ 32 :: 32 :: b).
Proof.
  destruct (clean_message_result U s) as (t & E & [H1 H2] & H3).
  exists t. auto.
Qed.

(* ================================================================== *)
(** ** [clean_message] applied twice *)
(* ================================================================== *)

(** Every step after [filter] only removes characters. *)

Lemma incl_dropwhile {A} (p : A -> bool) (l : list A) : incl (dropwhile p l) l.
Proof.
  destruct (dropwhile_split p l) as [a [E _]].
  rewrite E at 2. apply incl_appr, incl_refl.
Qed.

Lemma incl_skipn {A} n (l : list A) : incl (skipn n l) l.
Proof.
  rewrite <- (firstn_skipn n l) at 2. apply incl_appr, incl_refl.
Qed.

Lemma to_line_end_incl skip (s r : pystr) :
  to_line_end skip s = Some r -> incl r s.
Proof.
  revert r. induction s as [|c t IH]; simpl; intros r.
  - intros E. injection E as <-. apply incl_refl.
  - destruct (c =? 10) eqn:Hc.
    + apply N.eqb_eq in Hc. subst c.
      destruct t; [|discriminate]. intros E. injection E as <-.
      apply incl_refl.
    + destruct (skip c); [|discriminate].
      intros E. apply incl_tl. now apply IH.
Qed.

Lemma match_NSDictionary_removes : removes_only match_NSDictionary.
Proof.
  intros s r. unfold match_NSDictionary.
  destruct (starts_with _ _); [|discriminate].
  destruct (lstrip _); [|discriminate].
  intros E. injection E as <-. apply incl_nil_l.
Qed.

Lemma match_NSMutable_removes : removes_only match_NSMutable.
Proof.
  intros s r. unfold match_NSMutable.
  destruct (starts_with _ _); [|discriminate].
  destruct (skipn _ _) as [|c x]; [discriminate|].
  destruct (ascii_letter c); [|discriminate].
  destruct (lstrip _); [|discriminate].
  intros E. injection E as <-. apply incl_nil_l.
Qed.

Lemma match_kIM_removes : removes_only match_kIM.
Proof.
  intros s r. unfold match_kIM.
  destruct (starts_with _ _).
  - intros E. apply to_line_end_incl in E.
    eapply incl_tran; [exact E|].
    eapply incl_tran; [apply incl_skipn | apply incl_dropwhile].
  - destruct (starts_with _ _); [|discriminate].
    intros E. apply to_line_end_incl in E.
    eapply incl_tran; [exact E|].
    eapply incl_tran; [apply incl_skipn | apply incl_dropwhile].
Qed.

Lemma match_ijI_removes : removes_only match_ijI.
Proof.
  intros s r. unfold match_ijI.
  destruct s as [|c [|d x]]; try discriminate.
  destruct (_ && _); [|discriminate].
  intros E. apply to_line_end_incl in E.
  now apply incl_tl, incl_tl.
Qed.

Lemma sub_to_end_incl m (s : pystr) :
  removes_only m -> incl (sub_to_end m s) s.
Proof.
  intros Hm. induction s as [|c t IH]; simpl.
  - destruct (m []) eqn:E; [now apply Hm | apply incl_refl].
  - destruct (m (c :: t)) eqn:E; [now apply Hm|].
    apply incl_cons; [now left | now apply incl_tl].
Qed.

Lemma sub_leading_digit_incl (s : pystr) : incl (sub_leading_digit s) s.
Proof.
  destruct s as [|c [|d t]]; simpl; try apply incl_refl.
  destruct (_ && _); [apply incl_tl|]; apply incl_refl.
Qed.

Lemma drop_leading_letter_incl U (s : pystr) : incl (drop_leading_letter U s) s.
Proof.
  unfold drop_leading_letter.
  destruct s as [|c0 [|c1 [|c2 t]]]; try apply incl_refl.
  repeat match goal with
         | |- incl (if ?b then _ else _) _ => destruct b
         end; try apply incl_refl; apply incl_tl, incl_refl.
Qed.

Lemma artifact_rules_incl U (s : pystr) : incl (artifact_rules U s) s.
Proof.
  unfold artifact_rules.
  eapply incl_tran; [apply drop_leading_letter_incl|].
  eapply incl_tran; [apply sub_leading_digit_incl|].
  eapply incl_tran; [apply sub_to_end_incl, match_ijI_removes|].
  eapply incl_tran; [apply sub_to_end_incl, match_kIM_removes|].
  eapply incl_tran; [apply sub_to_end_incl, match_NSMutable_removes|].
  eapply incl_tran; [apply sub_to_end_incl, match_NSDictionary_removes|].
  apply incl_dropwhile.
Qed.

Lemma sub_spaces_incl (s : pystr) : incl (sub_spaces s) s.
Proof.
  induction s as [|c t IH]; [apply incl_refl|].
  destruct t as [|d t]; [apply incl_refl|].
  change (sub_spaces (c :: d :: t))
    with (if (c =? 32) && (d =? 32) then sub_spaces (d :: t)
          else c :: sub_spaces (d :: t)).
  destruct (_ && _).
  - now apply incl_tl.
  - apply incl_cons; [now left | now apply incl_tl].
Qed.

Lemma strip_incl (s : pystr) : incl (strip s) s.
Proof.
  destruct (strip_split s) as (a & b & E). rewrite E at 2.
  apply incl_appr, incl_appl, incl_refl.
Qed.

Lemma replace_object_clear (s : pystr) :
  Forall (fun c => c <> 0xFFFC) (replace_object s).
Proof.
  unfold replace_object. induction s as [|c t IH]; simpl; [constructor|].
  apply Forall_app. split; [|exact IH].
  destruct (c =? 0xFFFC) eqn:E.
  - repeat constructor; discriminate.
  - apply N.eqb_neq in E. now repeat constructor.
Qed.

Lemma replace_object_fixed (t : pystr) :
  Forall (fun c => c <> 0xFFFC) t -> replace_object t = t.
Proof.
  unfold replace_object. induction 1 as [|c t Hc _ IH]; simpl; [reflexivity|].
  apply N.eqb_neq in Hc. rewrite Hc. simpl. now rewrite IH.
Qed.

Lemma filter_fixed {A} (p : A -> bool) (l : list A) :
  Forall (fun x => p x = true) l -> filter p l = l.
Proof.
  induction 1 as [|x l Hx _ IH]; simpl; [reflexivity|].
  now rewrite Hx, IH.
Qed.

Lemma filter_keeps {A} (p : A -> bool) (P : A -> Prop) (l : list A) :
  Forall P l -> Forall (fun x => p x = true /\ P x) (filter p l).
Proof.
  induction 1 as [|x l Hx _ IH]; simpl; [constructor|].
  destruct (p x) eqn:E; [now constructor | exact IH].
Qed.

(** The characters of a rewritten text are kept by the filter and none is
    the object replacement character. *)
Lemma rewritten_chars U (s : pystr) :
  Forall (fun c => keep_char U c = true /\ c <> 0xFFFC) (rewritten U s).
Proof.
  unfold rewritten.
  eapply incl_Forall; [apply strip_incl|].
  eapply incl_Forall; [apply sub_spaces_incl|].
  eapply incl_Forall; [apply artifact_rules_incl|].
  apply filter_keeps, replace_object_clear.
Qed.

(** C2, as the code has it.  Cleaning a cleaned text again changes nothing
    provided the artifact rules (the leading format codes, the trailing
    [NSDictionary], [NSMutable...], [__kIM...] and [iI...] runs, the leading
    digit and the leading letter) find nothing more to remove in it: the
    replacement of U+FFFC, the filter, the collapsing of spaces and the
    final [strip] never change a text that [clean_message] returned. *)
Theorem clean_message_idempotent_when_settled
  (U : UnicodeData) (s t : pystr) :
  clean_message U (Some s) = Some t ->
  artifact_rules U t = t ->
  clean_message U (Some t) = Some t.
Proof.
  intros Hs Hart.
  destruct (clean_message_cases U t) as [[E _] | [E _]]; [exact E|].
  rewrite E. f_equal.
  destruct (clean_message_result U s) as (t' & Et & [Hhead Hlast] & Hfree).
  rewrite Hs in Et. injection Et as <-.
  destruct (clean_message_cases U s) as [[E' H] | [E' _]];
    rewrite Hs in E'; injection E' as E'.
  - (* [s] went through the guard, so [t = s] does as well *)
    subst t. destruct (clean_message_cases U s) as [[E2 _] | [_ (H1 & H2 & H3)]].
    + rewrite E in E2. now injection E2.
    + destruct H as [-> | [-> | ->]]; congruence.
  - pose proof (rewritten_chars U s) as Hc. rewrite <- E' in Hc.
    unfold rewritten.
    rewrite replace_object_fixed
      by (eapply Forall_impl; [|exact Hc]; intros c [_ H]; exact H).
    rewrite filter_fixed
      by (eapply Forall_impl; [|exact Hc]; intros c [H _]; exact H).
    rewrite Hart. rewrite sub_spaces_fixed by exact Hfree.
    now apply strip_fixed.
Qed.

(** A text on which the second pass removes one more leading letter:
    ['xCi b'] is cleaned to ['Ci b'], and ['Ci b'] to ['i b']. *)
Lemma clean_message_not_idempotent :
  clean_message ascii_tables (Some (lit "xCi b")) = Some (lit "Ci b")
  /\ clean_message ascii_tables (Some (lit "Ci b")) = Some (lit "i b")
  /\ clean_message ascii_tables
       (clean_message ascii_tables (Some (lit "xCi b")))
     <> clean_message ascii_tables (Some (lit "xCi b")).
Proof.
  split; [reflexivity|]. split; [reflexivity|].
  vm_compute. discriminate.
Qed.

Lemma clean_message_idempotent_when_settled_witness :
  clean_message ascii_tables (Some (lit "  dOMG  that NSDictionary "))
    = Some (lit "OMG that")
  /\ artifact_rules ascii_tables (lit "OMG that") = lit "OMG that"
  /\ clean_message ascii_tables (Some (lit "OMG that")) = Some (lit "OMG that").
Proof.
  split; [reflexivity|]. split; [reflexivity|].
  apply (@clean_message_idempotent_when_settled ascii_tables
           (lit "  dOMG  that NSDictionary ") (lit "OMG that"));
    reflexivity.
Defined.

(* ================================================================== *)
(** ** [decode_attributed_body] *)
(* ================================================================== *)

Lemma bytes_starts_with_app (p r : pybytes) : bytes_starts_with p (p ++ r) = true.
Proof.
  induction p as [|x p IH]; simpl; [reflexivity|].
  rewrite IH, andb_true_r. now apply Byte.byte_dec_lb.
Qed.

Lemma find_at_prefix (sub r : pybytes) (i : Z) : find_at sub (sub ++ r) i = i.
Proof.
  destruct (sub ++ r) eqn:E; simpl; rewrite <- E, bytes_starts_with_app;
    reflexivity.
Qed.

(** The first NUL byte after a NUL-free run. *)
Lemma find_at_nul (body rest : pybytes) (i : Z) :
  ~ In x00%byte body ->
  find_at [x00%byte] (body ++ x00%byte :: rest) i = (i + len body)%Z.
Proof.
  unfold len. revert i. induction body as [|b body IH]; intros i Hn.
  - simpl. lia.
  - assert (Hb : Byte.eqb x00 b = false).
    { destruct (Byte.eqb x00 b) eqn:E; [|reflexivity].
      apply Byte.byte_dec_bl in E. subst b. destruct Hn. now left. }
    simpl app. simpl find_at. rewrite Hb. simpl andb. cbv iota.
    rewrite IH by (intros H; apply Hn; now right).
    simpl List.length. lia.
Qed.

(** C1, as the code has it.  On the empty blob [decode_attributed_body]
    returns [None]; on every other blob it returns a string, whatever the
    bytes are and whatever the unarchiver of method 1 does with them,
    raising included. *)
Theorem decode_attributed_body_total
  (U : UnicodeData) (objc : PyObjC) (data : pybytes) :
  data <> [] ->
  decode_attributed_body U objc [] = None
  /\ exists s, decode_attributed_body U objc data = Some s.
Proof.
  intros Hd. split; [reflexivity|].
  destruct data as [|b data]; [contradiction|].
  unfold decode_attributed_body.
  destruct (method_pyobjc objc (b :: data)); [eauto|].
  destruct (method_marker (b :: data)); [eauto|].
  destruct (method_direct U (b :: data)); eauto.
Qed.

Lemma decode_attributed_body_total_witness :
  [x00%byte] <> []
  /\ decode_attributed_body ascii_tables (Some (fun _ => Raises)) [] = None
  /\ exists s,
       decode_attributed_body ascii_tables (Some (fun _ => Raises)) [x00%byte]
       = Some s.
Proof.
  split; [discriminate|].
  apply (@decode_attributed_body_total ascii_tables (Some (fun _ => Raises))
           [x00%byte]).
  discriminate.
Defined.

(** The empty blob is answered with [None], which is not a string. *)
Lemma decode_attributed_body_empty :
  decode_attributed_body ascii_tables None [] = None
  /\ ~ (exists s, decode_attributed_body ascii_tables None [] = Some s).
Proof.
  split; [reflexivity|]. intros [s H]. discriminate.
Qed.

(** The first occurrence of [sub]: no occurrence starts inside [pre]. *)
Lemma find_at_first (sub pre r : pybytes) (i : Z) :
  (forall k, (k < List.length pre)%nat ->
             bytes_starts_with sub (skipn k (pre ++ sub ++ r)) = false) ->
  find_at sub (pre ++ sub ++ r) i = (i + len pre)%Z.
Proof.
  unfold len. revert i. induction pre as [|b pre IH]; intros i H.
  - simpl app. rewrite find_at_prefix. simpl. lia.
  - pose proof (H 0%nat ltac:(simpl; lia)) as H0. simpl skipn in H0.
    simpl app in *. simpl find_at. rewrite H0.
    rewrite IH.
    + simpl List.length. lia.
    + intros k Hk. apply (H (S k)). simpl. lia.
Qed.

(** C3, as the code has it.  The marker scan starts 8 bytes past the
    start of the first [NSString] marker, that is at the first byte after
    the 8 bytes of the marker themselves, and stops before the next NUL
    byte.  So for a blob made of bytes [pre] without the marker, the
    marker, a NUL-free [body], a NUL byte and anything after it, the
    decoder returns [body] decoded as UTF-8 with undecodable bytes
    ignored, when that is not empty and method 1 gave nothing.  With
    nothing before the marker and the bytes of [hello] as [body] it
    returns [hello]. *)
Theorem decode_marker_scan
  (U : UnicodeData) (objc : PyObjC) (pre body rest : pybytes) :
  method_pyobjc objc (pre ++ NSString ++ body ++ x00%byte :: rest) = None ->
  (forall k, (k < List.length pre)%nat ->
     bytes_starts_with NSString
       (skipn k (pre ++ NSString ++ body ++ x00%byte :: rest)) = false) ->
  ~ In x00%byte body ->
  utf8_decode_ignore body <> [] ->
  decode_attributed_body U objc (pre ++ NSString ++ body ++ x00%byte :: rest)
  = Some (utf8_decode_ignore body).
Proof.
  intros H1 Hfirst Hn Hne.
  set (data := pre ++ NSString ++ body ++ x00%byte :: rest) in *.
  assert (Hbody : body <> []) by (intros ->; now apply Hne).
  assert (Hfind : find NSString data = len pre).
  { unfold find, data. rewrite find_at_first by exact Hfirst. lia. }
  assert (Hskip : skipn (List.length pre + 8) data = body ++ x00%byte :: rest).
  { unfold data. rewrite skipn_app, skipn_all2 by lia.
    replace (List.length pre + 8 - List.length pre)%nat with 8%nat by lia.
    reflexivity. }
  assert (Hlen : len data = (len pre + 8 + len body + 1 + len rest)%Z).
  { unfold data, len. rewrite !length_app. simpl List.length. lia. }
  assert (Hpre : (0 <= len pre)%Z) by (unfold len; lia).
  assert (Hidx : Z.to_nat (len pre + 8) = (List.length pre + 8)%nat)
    by (unfold len; lia).
  assert (Hm : method_marker data = Some (utf8_decode_ignore body)).
  { unfold method_marker, contains. rewrite Hfind.
    assert (Hc : (0 <=? len pre)%Z = true) by (apply Z.leb_le; lia).
    rewrite Hc. cbv zeta.
    assert (Hl : (len pre + 8 <? len data)%Z = true)
      by (apply Z.ltb_lt; unfold len in *; lia).
    rewrite Hl.
    unfold find_from. rewrite Hidx, Hskip, find_at_nul by exact Hn.
    assert (Hb : (0 < len body)%Z)
      by (unfold len; destruct body; [contradiction | simpl; lia]).
    assert (Hg : (len pre + 8 + len body >? len pre + 8)%Z = true)
      by (apply Z.gtb_lt; lia).
    rewrite Hg. unfold slice. rewrite Hidx, Hskip.
    replace (Z.to_nat (len pre + 8 + len body - (len pre + 8)))
      with (List.length body) by (unfold len; lia).
    rewrite firstn_app, Nat.sub_diag, firstn_all. simpl firstn.
    rewrite app_nil_r.
    destruct (utf8_decode_ignore body); [contradiction | reflexivity]. }
  unfold decode_attributed_body.
  destruct data as [|b d] eqn:Ed.
  - unfold len in Hlen. simpl in Hlen. lia.
  - now rewrite H1, Hm.
Qed.

Lemma decode_marker_scan_witness :
  (* the marker at the start of the blob *)
  (method_pyobjc None ([] ++ NSString ++ blit "hello" ++ x00%byte :: []) = None
   /\ ~ In x00%byte (blit "hello")
   /\ utf8_decode_ignore (blit "hello") <> []
   /\ decode_attributed_body ascii_tables None
        ([] ++ NSString ++ blit "hello" ++ x00%byte :: [])
      = Some (lit "hello"))
  (* the marker after two other bytes, and bytes after the NUL *)
  /\ ((forall k, (k < List.length [x04; x0b]%byte)%nat ->
         bytes_starts_with NSString
           (skipn k ([x04; x0b]%byte ++ NSString ++ blit "hello"
                      ++ x00%byte :: blit "tail")) = false)
      /\ decode_attributed_body ascii_tables (Some (fun _ => Raises))
           ([x04; x0b]%byte ++ NSString ++ blit "hello"
             ++ x00%byte :: blit "tail")
         = Some (lit "hello")).
Proof.
  assert (Hn : ~ In x00%byte (blit "hello")).
  { simpl. intros H. repeat (destruct H as [H | H]; [discriminate|]).
    exact H. }
  assert (Hd : utf8_decode_ignore (blit "hello") <> []) by discriminate.
  split.
  - assert (Hf : forall k, (k < List.length (@nil byte))%nat ->
       bytes_starts_with NSString
         (skipn k ([] ++ NSString ++ blit "hello" ++ x00%byte :: [])) = false)
      by (intros k Hk; simpl in Hk; lia).
    split; [reflexivity|]. split; [exact Hn|]. split; [exact Hd|].
    exact (@decode_marker_scan ascii_tables None [] (blit "hello") []
             eq_refl Hf Hn Hd).
  - assert (Hf : forall k, (k < List.length [x04; x0b]%byte)%nat ->
       bytes_starts_with NSString
         (skipn k ([x04; x0b]%byte ++ NSString ++ blit "hello"
                    ++ x00%byte :: blit "tail")) = false).
    { intros k Hk. destruct k as [|[|k]]; [reflexivity | reflexivity|].
      simpl in Hk. lia. }
    split; [exact Hf|].
    exact (@decode_marker_scan ascii_tables (Some (fun _ => Raises))
             [x04; x0b]%byte (blit "hello") (blit "tail") eq_refl Hf Hn Hd).
Defined.

(** With 8 filler bytes between the marker and the text, the filler is
    the beginning of the scanned range: 8 NUL bytes end the scan at once
    and the blob, too short for method 3, falls to the sentinel; 8 letters
    come out in front of the text. *)
Lemma decode_marker_filler :
  decode_attributed_body ascii_tables None
    (NSString ++ repeat x00%byte 8 ++ blit "hello" ++ [x00%byte])
  = Some BINARY_DATA
  /\ decode_attributed_body ascii_tables None
       (NSString ++ repeat "A"%byte 8 ++ blit "hello" ++ [x00%byte])
     = Some (lit "AAAAAAAAhello")
  /\ decode_attributed_body ascii_tables None
       (NSString ++ repeat x00%byte 8 ++ blit "hello" ++ [x00%byte])
     <> Some (lit "hello").
Proof.
  split; [reflexivity|]. split; [reflexivity|].
  vm_compute. discriminate.
Qed.

(** What the last two steps of the chain return, when methods 1 and 2
    gave nothing: the sentinel when the blob has at most 50 bytes or
    nothing from offset 50 on survives the filter, else the filtered text
    stripped, whether or not stripping leaves anything. *)
Lemma decode_direct_result
  (U : UnicodeData) (objc : PyObjC) (b : byte) (data : pybytes) :
  method_pyobjc objc (b :: data) = None ->
  method_marker (b :: data) = None ->
  decode_attributed_body U objc (b :: data)
  = if (len (b :: data) <=? 50)%Z then Some BINARY_DATA
    else match filter (keep_char U)
                 (utf8_decode_ignore (skipn 50 (b :: data))) with
         | [] => Some BINARY_DATA
         | c :: t => Some (strip (c :: t))
         end.
Proof.
  intros H1 H2. unfold decode_attributed_body. rewrite H1, H2.
  unfold method_direct. cbv zeta. change (Z.to_nat 50) with 50%nat.
  rewrite Z.gtb_ltb, Z.leb_antisym.
  destruct (50 <? len (b :: data))%Z; simpl negb; cbv iota; [|reflexivity].
  destruct (filter _ _); reflexivity.
Qed.

(** C5 at a blob of 50 bytes followed by one space: the text from offset
    50 is one space, it passes the filter, the test [if cleaned:] accepts
    it and [cleaned.strip()] returns the empty string, not the sentinel. *)
Theorem decode_direct_whitespace :
  method_pyobjc None (repeat "A"%byte 50 ++ blit " ") = None
  /\ method_marker (repeat "A"%byte 50 ++ blit " ") = None
  /\ decode_attributed_body ascii_tables None (repeat "A"%byte 50 ++ blit " ")
     = Some []
  /\ decode_attributed_body ascii_tables None (repeat "A"%byte 50 ++ blit " ")
     <> Some BINARY_DATA.
Proof.
  split; [reflexivity|]. split; [reflexivity|]. split; [reflexivity|].
  vm_compute. discriminate.
Qed.

(* ================================================================== *)
(** ** The dispatch between plain text and blob *)
(* ================================================================== *)

(** C6.  A plain text that is present and not empty is taken as it is,
    whatever the blob; otherwise a blob with bytes in it goes through
    [decode_attributed_body]; otherwise the text is empty.  A blob that is
    present but has no bytes is not decoded, which the stored text cannot
    tell from decoding it: the decoder answers [None] there and both [None]
    and the empty string are stored as the empty string. *)
Theorem decoded_dispatch
  (U : UnicodeData) (objc : PyObjC) (row : message_row) :
  (forall c t, m_text row = Some (c :: t) -> decoded U objc row = Some (c :: t))
  /\ (truthy (m_text row) = false ->
      forall b blob, m_attributedBody row = Some (b :: blob) ->
      decoded U objc row = decode_attributed_body U objc (b :: blob))
  /\ (truthy (m_text row) = false ->
      blob_truthy (m_attributedBody row) = false ->
      decoded U objc row = Some [])
  /\ (m_attributedBody row <> Some [] ->
      decoded U objc row = spec_source_text U objc row)
  /\ cleaned U objc row = clean_or_empty U (spec_source_text U objc row).
Proof.
  unfold cleaned, decoded, spec_source_text.
  destruct (m_text row) as [[|c t]|] eqn:Et; simpl truthy; cbv iota.
  - repeat split; try discriminate.
    + intros _ b blob ->. reflexivity.
    + intros _. destruct (m_attributedBody row) as [[|? ?]|];
        [reflexivity | discriminate | reflexivity].
    + intros H. destruct (m_attributedBody row) as [[|? ?]|];
        [contradiction | reflexivity | reflexivity].
    + destruct (m_attributedBody row) as [[|? ?]|]; reflexivity.
  - repeat split; try discriminate.
    intros c' t' E. now injection E as -> ->.
  - repeat split; try discriminate.
    + intros _ b blob ->. reflexivity.
    + intros _. destruct (m_attributedBody row) as [[|? ?]|];
        [reflexivity | discriminate | reflexivity].
    + intros H. destruct (m_attributedBody row) as [[|? ?]|];
        [contradiction | reflexivity | reflexivity].
    + destruct (m_attributedBody row) as [[|? ?]|]; reflexivity.
Qed.

Lemma decoded_dispatch_witness :
  m_text both_row = Some (lit "plain")
  /\ decode_attributed_body ascii_tables None
       (NSString ++ blit "blob" ++ [x00%byte]) = Some (lit "blob")
  /\ decoded ascii_tables None both_row = Some (lit "plain").
Proof.
  split; [reflexivity|]. split; [reflexivity|].
  destruct (@decoded_dispatch ascii_tables None both_row) as [H _].
  exact (H _ _ eq_refl).
Defined.

(* ================================================================== *)
(** ** [apple_to_unix] *)
(* ================================================================== *)

Local Open Scope Z_scope.

(** Rounding to an integer stays between two integers that enclose the
    fraction. *)
Lemma round_half_even_between (n d lo hi : Z) :
  0 < d -> lo * d <= n <= hi * d ->
  lo <= round_half_even n d <= hi.
Proof.
  intros Hd [Hlo Hhi]. unfold round_half_even.
  pose proof (Z.div_mod n d ltac:(lia)) as Hdm.
  pose proof (Z.mod_pos_bound n d Hd) as Hr.
  set (q := n / d) in *. set (r := n mod d) in *.
  assert (Hq1 : lo <= q) by nia.
  assert (Hq2 : q <= hi) by nia.
  assert (Hq3 : 0 < r -> q + 1 <= hi) by nia.
  destruct (2 * r <? d) eqn:E1; [lia|].
  apply Z.ltb_ge in E1.
  destruct (d <? 2 * r); [lia|].
  destruct (Z.even q); lia.
Qed.

(** The exponent chosen by [ulp_exponent] leaves 53 significant bits:
    the scaled fraction lies in [[2^52, 2^53)], so [round_pos] rounds to
    the precision of binary64. *)
Lemma scale_e0_bounds (n d : Z) :
  0 < n -> 0 < d ->
  let (sn, sd) := scale n d (Z.log2 n - Z.log2 d - 53) in
  0 < sd /\ 2 ^ 52 * sd <= sn < 2 ^ 54 * sd.
Proof.
  intros Hn Hd.
  pose proof (Z.log2_spec n Hn) as [Hn1 Hn2].
  pose proof (Z.log2_spec d Hd) as [Hd1 Hd2].
  pose proof (Z.log2_nonneg n) as Hln.
  pose proof (Z.log2_nonneg d) as Hld.
  set (ln := Z.log2 n) in *. set (ld := Z.log2 d) in *.
  unfold scale. destruct (0 <=? ln - ld - 53) eqn:E.
  - apply Z.leb_le in E.
    set (e := ln - ld - 53) in *.
    assert (He : 0 < 2 ^ e) by (apply Z.pow_pos_nonneg; lia).
    assert (H1 : 2 ^ ln = 2 ^ 53 * (2 ^ ld * 2 ^ e)).
    { rewrite <- !Z.pow_add_r by lia. f_equal. lia. }
    rewrite Z.pow_succ_r in Hn2, Hd2 by lia.
    change (2 ^ 54) with (2 * 2 ^ 53). change (2 ^ 53) with (2 * 2 ^ 52) in *.
    split; [nia|]. split; nia.
  - apply Z.leb_gt in E.
    set (e := ln - ld - 53) in *.
    assert (He : 0 < 2 ^ (- e)) by (apply Z.pow_pos_nonneg; lia).
    assert (H1 : 2 ^ ln * 2 ^ (- e) = 2 ^ 53 * 2 ^ ld).
    { rewrite <- !Z.pow_add_r by lia. f_equal. lia. }
    rewrite Z.pow_succ_r in Hn2, Hd2 by lia.
    change (2 ^ 54) with (2 * 2 ^ 53). change (2 ^ 53) with (2 * 2 ^ 52) in *.
    split; [lia|]. split; nia.
Qed.

Lemma scale_succ (n d e : Z) :
  0 < d ->
  let (sn, sd) := scale n d e in
  let (tn, td) := scale n d (e + 1) in
  0 < td /\ 2 * tn * sd = sn * td.
Proof.
  intros Hd. unfold scale.
  destruct (0 <=? e) eqn:E1; destruct (0 <=? e + 1) eqn:E2;
    try apply Z.leb_le in E1; try apply Z.leb_le in E2;
    try apply Z.leb_gt in E1; try apply Z.leb_gt in E2; try lia.
  - rewrite Z.pow_add_r by lia. change (2 ^ 1) with 2.
    assert (0 < 2 ^ e) by (apply Z.pow_pos_nonneg; lia). split; nia.
  - assert (e = -1) as -> by lia.
    change (2 ^ (- -1)) with 2. change (2 ^ (-1 + 1)) with 1. split; lia.
  - replace (- e) with (- (e + 1) + 1) by lia.
    rewrite Z.pow_add_r by lia. change (2 ^ 1) with 2.
    split; [lia | ring].
Qed.

Lemma div_between (n d lo hi : Z) :
  0 < d -> lo * d <= n < hi * d -> lo <= n / d < hi.
Proof.
  intros Hd [H1 H2]. split.
  - apply Z.div_le_lower_bound; lia.
  - apply Z.div_lt_upper_bound; lia.
Qed.

Lemma ulp_exponent_spec (n d : Z) :
  0 < n -> 0 < d ->
  let (sn, sd) := scale n d (ulp_exponent n d) in
  0 < sd /\ 2 ^ 52 <= sn / sd < 2 ^ 53.
Proof.
  intros Hn Hd. unfold ulp_exponent.
  pose proof (scale_e0_bounds Hn Hd) as H0.
  pose proof (@scale_succ n d (Z.log2 n - Z.log2 d - 53) Hd) as H1.
  set (e := Z.log2 n - Z.log2 d - 53) in *.
  destruct (scale n d e) as [sn sd] eqn:Es.
  destruct H0 as [Hsd [Hlo Hhi]].
  destruct (sn / sd <? 2 ^ 53) eqn:E.
  - rewrite Es. apply Z.ltb_lt in E. split; [exact Hsd|]. split; [|exact E].
    apply Z.div_le_lower_bound; lia.
  - apply Z.ltb_ge in E.
    destruct (scale n d (e + 1)) as [tn td]. destruct H1 as [Htd Heq].
    split; [exact Htd|].
    assert (H53 : 2 ^ 53 * sd <= sn).
    { pose proof (Z.div_mod sn sd ltac:(lia)).
      pose proof (Z.mod_pos_bound sn sd Hsd). nia. }
    change (2 ^ 54) with (2 * 2 ^ 53) in Hhi.
    change (2 ^ 53) with (2 * 2 ^ 52) in *.
    apply div_between; [exact Htd|]. split; nia.
Qed.

Lemma ulp_exponent_nonpos (n d : Z) :
  0 < n -> 0 < d -> n < 2 ^ 53 * d -> ulp_exponent n d <= 0.
Proof.
  intros Hn Hd Hlt. unfold ulp_exponent.
  pose proof (Z.log2_nonneg d) as Hld.
  assert (He : Z.log2 n - Z.log2 d - 53 <= 0).
  { pose proof (Z.log2_spec d Hd) as [_ Hd2].
    assert (n < 2 ^ (Z.log2 d + 54)).
    { replace (Z.log2 d + 54) with (53 + Z.succ (Z.log2 d)) by lia.
      rewrite Z.pow_add_r by lia. nia. }
    apply Z.log2_lt_pow2 in H; lia. }
  set (e := Z.log2 n - Z.log2 d - 53) in *.
  destruct (scale n d e) as [sn sd] eqn:Es.
  destruct (sn / sd <? 2 ^ 53) eqn:E; [exact He|].
  apply Z.ltb_ge in E.
  assert (e <> 0); [|lia].
  intros H0. rewrite H0 in Es. unfold scale in Es. simpl in Es.
  injection Es as <- <-. rewrite Z.mul_1_r in E.
  assert (n / d < 2 ^ 53) by (apply Z.div_lt_upper_bound; lia).
  lia.
Qed.

(** A positive fraction between two consecutive integers below [2^53]
    rounds to a binary64 between the same two integers: both are binary64
    values, and the rounding cannot step over them. *)
Lemma round_pos_between (n d k : Z) :
  0 < n -> 0 < d -> 0 <= k -> k + 1 < 2 ^ 53 ->
  k * d <= n <= (k + 1) * d ->
  between k (round_pos n d).
Proof.
  intros Hn Hd Hk Hk53 [Hlo Hhi].
  assert (He : ulp_exponent n d <= 0) by (apply ulp_exponent_nonpos; nia).
  unfold round_pos, between.
  set (e := ulp_exponent n d) in *.
  unfold scale. destruct (0 <=? e) eqn:E0.
  - apply Z.leb_le in E0. assert (e = 0) as -> by lia.
    simpl fnum. simpl fden. change (2 ^ 0) with 1.
    rewrite !Z.mul_1_r.
    split; [lia|]. apply round_half_even_between; lia.
  - apply Z.leb_gt in E0. simpl fnum. simpl fden.
    assert (Hp : 0 < 2 ^ (- e)) by (apply Z.pow_pos_nonneg; lia).
    split; [exact Hp|].
    apply round_half_even_between; [exact Hd|]. nia.
Qed.

Lemma round64_between (n d k : Z) :
  0 < d -> - 2 ^ 53 < k -> k + 1 < 2 ^ 53 ->
  k * d <= n <= (k + 1) * d ->
  between k (round64 n d).
Proof.
  intros Hd Hk1 Hk2 [Hlo Hhi]. unfold round64.
  destruct (n =? 0) eqn:E0.
  - apply Z.eqb_eq in E0. subst n. unfold between. simpl. nia.
  - apply Z.eqb_neq in E0. destruct (0 <? n) eqn:Ep.
    + apply Z.ltb_lt in Ep. apply round_pos_between; try lia. nia.
    + apply Z.ltb_ge in Ep.
      assert (Hb : between (- (k + 1)) (round_pos (- n) d)).
      { apply round_pos_between; try lia; nia. }
      unfold between in *. unfold fneg. simpl. lia.
Qed.

(** A fraction with an integer value below [2^53] in size is a binary64
    value, and rounding leaves it as it is. *)
Lemma round64_exact (d k : Z) :
  0 < d -> - 2 ^ 53 + 1 < k -> k + 1 < 2 ^ 53 ->
  fnum (round64 (k * d) d) = k * fden (round64 (k * d) d)
  /\ 0 < fden (round64 (k * d) d).
Proof.
  intros Hd Hk1 Hk2.
  assert (Ha : between k (round64 (k * d) d))
    by (apply round64_between; lia).
  assert (Hb : between (k - 1) (round64 (k * d) d))
    by (apply round64_between; lia).
  destruct Ha as [Hp [H1 _]]. destruct Hb as [_ [_ H2]].
  split; [lia | exact Hp].
Qed.

Lemma quot_between (n d lo hi : Z) :
  0 < d -> lo * d <= n <= hi * d -> lo <= Z.quot n d <= hi.
Proof.
  intros Hd [Hlo Hhi].
  destruct (Z.le_gt_cases 0 n) as [Hn | Hn].
  - rewrite Z.quot_div_nonneg by lia.
    pose proof (Z.div_mod n d ltac:(lia)).
    pose proof (Z.mod_pos_bound n d Hd). nia.
  - replace n with (- (- n)) by lia. rewrite Z.quot_opp_l by lia.
    rewrite Z.quot_div_nonneg by lia.
    pose proof (Z.div_mod (- n) d ltac:(lia)).
    pose proof (Z.mod_pos_bound (- n) d Hd). nia.
Qed.

Lemma int_of_float_between (k : Z) (x : binary64) :
  between k x -> k <= int_of_float x <= k + 1.
Proof.
  intros [Hp H]. unfold int_of_float. now apply quot_between.
Qed.

Lemma float_add_int_between (k j : Z) (x : binary64) :
  between k x -> - 2 ^ 53 < k + j -> k + j + 1 < 2 ^ 53 ->
  between (k + j) (float_add_int x j).
Proof.
  intros [Hp H] H1 H2. unfold float_add_int.
  apply round64_between; try assumption. nia.
Qed.

(** C4, as the code has it.  [apple_to_unix] returns [None] on [None] and
    on 0.  On any other 64-bit timestamp it returns the binary64 sum of
    [timestamp / 1_000_000_000] and [APPLE_EPOCH] truncated toward zero,
    which is [floor(timestamp / 1_000_000_000) + 978307200] or that number
    plus one, and is exactly that number when the timestamp is a whole
    number of seconds; [apple_to_unix(694224000_000_000_000)] is
    1672531200. *)
Theorem apple_to_unix_spec (ts : Z) :
  ts <> 0 -> - 2 ^ 63 <= ts < 2 ^ 63 ->
  apple_to_unix None = None
  /\ apple_to_unix (Some 0) = None
  /\ apple_to_unix (Some 694224000000000000) = Some 1672531200
  /\ exists r,
       apple_to_unix (Some ts) = Some r
       /\ ts / 1000000000 + 978307200 <= r <= ts / 1000000000 + 978307200 + 1
       /\ (ts mod 1000000000 = 0 -> r = ts / 1000000000 + 978307200).
Proof.
  intros Hnz Hrange.
  split; [reflexivity|]. split; [reflexivity|]. split; [vm_compute; reflexivity|].
  unfold apple_to_unix. apply Z.eqb_neq in Hnz. rewrite Hnz.
  eexists. split; [reflexivity|].
  change (2 ^ 63) with 9223372036854775808 in Hrange.
  assert (Hd : 0 < 1000000000) by lia.
  pose proof (Z.div_mod ts 1000000000 ltac:(lia)) as Hdm.
  pose proof (Z.mod_pos_bound ts 1000000000 Hd) as Hr.
  set (d := 1000000000) in *. set (k := ts / d) in *.
  assert (Hk : - 17179869184 < k < 17179869184) by (subst d; lia).
  assert (H53 : 2 ^ 53 = 9007199254740992) by reflexivity.
  assert (Hx : between k (true_divide ts d)).
  { apply round64_between; rewrite ?H53; subst d; lia. }
  assert (Hy : between (k + APPLE_EPOCH)
                 (float_add_int (true_divide ts d) APPLE_EPOCH)).
  { apply float_add_int_between; [exact Hx | |];
      rewrite H53; unfold APPLE_EPOCH; lia. }
  split.
  - apply int_of_float_between in Hy. unfold APPLE_EPOCH in *. lia.
  - intros Hm.
    assert (Ets : ts = k * d) by lia.
    unfold true_divide, float_add_int. rewrite Ets.
    destruct (@round64_exact d k) as [E1 P1];
      [exact Hd | rewrite H53; lia | rewrite H53; lia |].
    set (x := round64 (k * d) d) in *.
    rewrite E1.
    replace (k * fden x + APPLE_EPOCH * fden x)
      with ((k + APPLE_EPOCH) * fden x) by lia.
    destruct (@round64_exact (fden x) (k + APPLE_EPOCH)) as [E2 P2];
      [exact P1 | rewrite H53; unfold APPLE_EPOCH; lia
       | rewrite H53; unfold APPLE_EPOCH; lia |].
    unfold int_of_float. rewrite E2.
    rewrite Z.quot_mul by lia. reflexivity.
Qed.

Lemma apple_to_unix_spec_witness :
  694224000000000000 <> 0
  /\ - 2 ^ 63 <= 694224000000000000 < 2 ^ 63
  /\ exists r,
       apple_to_unix (Some 694224000000000000) = Some r
       /\ 694224000000000000 / 1000000000 + 978307200 <= r
          <= 694224000000000000 / 1000000000 + 978307200 + 1
       /\ (694224000000000000 mod 1000000000 = 0 ->
           r = 694224000000000000 / 1000000000 + 978307200).
Proof.
  assert (H1 : 694224000000000000 <> 0) by discriminate.
  assert (H2 : - 2 ^ 63 <= 694224000000000000 < 2 ^ 63) by (simpl; lia).
  split; [exact H1|]. split; [exact H2|].
  exact (proj2 (proj2 (proj2 (@apple_to_unix_spec _ H1 H2)))).
Defined.

(** In the last fraction of a second the binary64 sum rounds up to the
    next second: [apple_to_unix(999_999_999)] is 978307201, one more than
    [floor(999_999_999 / 1_000_000_000) + 978307200]. *)
Lemma apple_to_unix_rounds_up :
  apple_to_unix (Some 999999999) = Some 978307201
  /\ apple_to_unix (Some 999999999)
     <> Some (999999999 / 1000000000 + 978307200).
Proof.
  split; [vm_compute; reflexivity|]. vm_compute. discriminate.
Qed.

(** The rounding model against the machine: the sum that [apple_to_unix]
    truncates is the one the binary64 unit computes, on a few timestamps
    below [2^53]. *)
Example model_agrees_with_machine :
  forallb
    (fun ts => same_value
                 (float_add_int (true_divide ts 1000000000) APPLE_EPOCH)
                 (machine_sum ts))
    [1; 2; 3; 7; 999999999; 123456789; 1000000000; 1500000000; 1000000001;
     4503599627370497; 9007199254740991; 12345678912345; 555555555555555;
     999999999999999; 8999999999999999] = true.
Proof. vm_compute. reflexivity. Qed.

(* ================================================================== *)
(** ** The examples of the documentation, on the model *)
(* ================================================================== *)

Local Open Scope N_scope.

Example clean_dOMG :
  clean_message ascii_tables (Some (lit "dOMG")) = Some (lit "OMG").
Proof. reflexivity. Qed.

Example clean_Ohttps :
  clean_message ascii_tables (Some (lit "Ohttps://x.com"))
  = Some (lit "https://x.com").
Proof. reflexivity. Qed.

Example clean_Ci_believe :
  clean_message ascii_tables (Some (lit "Ci believe you"))
  = Some (lit "i believe you").
Proof. reflexivity. Qed.

Example clean_OMG :
  clean_message ascii_tables (Some (lit "OMG")) = Some (lit "OMG").
Proof. reflexivity. Qed.

Example clean_object :
  clean_message ascii_tables (Some [0xFFFC]) = Some (lit "[image]").
Proof. reflexivity. Qed.

Example clean_wild :
  clean_message ascii_tables (Some (lit "  !!dOMG that's wild" ++ [0xFFFC; 32; 32]))
  = Some (lit "OMG that's wild[image]").
Proof. reflexivity. Qed.

Example reaction_loved :
  is_reaction_message (Some (lit "Loved " ++ [0x201C] ++ lit "ok" ++ [0x201D]))
  = true
  /\ is_reaction_message (Some (lit "ok Loved it")) = false.
Proof. split; reflexivity. Qed.

Example quoted_hi :
  is_quoted_message (Some (lit "She said " ++ [34] ++ lit "hi" ++ [34])) = true
  /\ is_quoted_message (Some (lit "hello")) = false.
Proof. split; reflexivity. Qed.

(* ================================================================== *)
(** * Further properties *)
(* ================================================================== *)

Local Open Scope N_scope.

(** ** [clean_message] only removes *)

Section Subseq.

Context {A : Type}.

Lemma subseq_refl (l : list A) : subseq l l.
Proof. induction l; constructor; assumption. Qed.

Lemma subseq_nil_l (l : list A) : subseq [] l.
Proof. induction l; constructor; assumption. Qed.

Lemma subseq_trans (l1 l2 l3 : list A) :
  subseq l1 l2 -> subseq l2 l3 -> subseq l1 l3.
Proof.
  intros H12 H23. revert l1 H12.
  induction H23 as [|x l2 l3 _ IH|x l2 l3 _ IH]; intros l1 H12.
  - exact H12.
  - constructor. now apply IH.
  - inversion H12; subst.
    + apply subseq_skip. now apply IH.
    + apply subseq_keep. now apply IH.
Qed.

Lemma subseq_app (a1 a2 b1 b2 : list A) :
  subseq a1 a2 -> subseq b1 b2 -> subseq (a1 ++ b1) (a2 ++ b2).
Proof.
  intros Ha Hb. induction Ha; simpl; try constructor; assumption.
Qed.

Lemma subseq_app_r (a l : list A) : subseq l (a ++ l).
Proof.
  change l with ([] ++ l) at 1.
  apply subseq_app; [apply subseq_nil_l | apply subseq_refl].
Qed.

Lemma subseq_app_l (l b : list A) : subseq l (l ++ b).
Proof.
  rewrite <- (app_nil_r l) at 1.
  apply subseq_app; [apply subseq_refl | apply subseq_nil_l].
Qed.

Lemma subseq_length (l1 l2 : list A) :
  subseq l1 l2 -> (List.length l1 <= List.length l2)%nat.
Proof. induction 1; simpl; lia. Qed.

Lemma subseq_In (l1 l2 : list A) x : subseq l1 l2 -> In x l1 -> In x l2.
Proof.
  induction 1 as [|y l1 l2 _ IH|y l1 l2 _ IH]; simpl; intros Hx; auto.
  destruct Hx; auto.
Qed.

Lemma subseq_Forall (P : A -> Prop) (l1 l2 : list A) :
  subseq l1 l2 -> Forall P l2 -> Forall P l1.
Proof.
  intros H F. apply Forall_forall. intros x Hx.
  rewrite Forall_forall in F. apply F. eapply subseq_In; eassumption.
Qed.

(** A piece as long as the whole is the whole. *)
Lemma subseq_same_length (l1 l2 : list A) :
  subseq l1 l2 -> List.length l1 = List.length l2 -> l1 = l2.
Proof.
  induction 1 as [|x l1 l2 H IH|x l1 l2 H IH]; simpl; intros E.
  - reflexivity.
  - apply subseq_length in H. lia.
  - f_equal. apply IH. lia.
Qed.

Lemma subseq_antisym (l1 l2 : list A) :
  subseq l1 l2 -> subseq l2 l1 -> l1 = l2.
Proof.
  intros H1 H2. apply subseq_same_length; [exact H1|].
  apply subseq_length in H1, H2. lia.
Qed.

Lemma subseq_filter (p : A -> bool) (l : list A) : subseq (filter p l) l.
Proof.
  induction l as [|x l IH]; simpl; [constructor|].
  destruct (p x); constructor; assumption.
Qed.

Lemma subseq_dropwhile (p : A -> bool) (l : list A) : subseq (dropwhile p l) l.
Proof.
  destruct (dropwhile_split p l) as [a [E _]]. rewrite E at 2.
  apply subseq_app_r.
Qed.

Lemma subseq_skipn n (l : list A) : subseq (skipn n l) l.
Proof. rewrite <- (firstn_skipn n l) at 2. apply subseq_app_r. Qed.

End Subseq.

Lemma to_line_end_piece skip (s r : pystr) :
  to_line_end skip s = Some r -> subseq r s.
Proof.
  revert r. induction s as [|c t IH]; simpl; intros r.
  - intros E. injection E as <-. constructor.
  - destruct (c =? 10) eqn:Hc.
    + apply N.eqb_eq in Hc. subst c.
      destruct t; [|discriminate]. intros E. injection E as <-.
      apply subseq_refl.
    + destruct (skip c); [|discriminate].
      intros E. constructor. now apply IH.
Qed.

Lemma match_NSDictionary_piece : leaves_piece match_NSDictionary.
Proof.
  intros s r. unfold match_NSDictionary.
  destruct (starts_with _ _); [|discriminate].
  destruct (lstrip _); [|discriminate].
  intros E. injection E as <-. apply subseq_nil_l.
Qed.

Lemma match_NSMutable_piece : leaves_piece match_NSMutable.
Proof.
  intros s r. unfold match_NSMutable.
  destruct (starts_with _ _); [|discriminate].
  destruct (skipn _ _) as [|c x]; [discriminate|].
  destruct (ascii_letter c); [|discriminate].
  destruct (lstrip _); [|discriminate].
  intros E. injection E as <-. apply subseq_nil_l.
Qed.

Lemma match_kIM_piece : leaves_piece match_kIM.
Proof.
  intros s r. unfold match_kIM, lstrip.
  destruct (starts_with _ _).
  - intros E. apply to_line_end_piece in E.
    eapply subseq_trans; [exact E|].
    eapply subseq_trans; [apply subseq_skipn | apply subseq_dropwhile].
  - destruct (starts_with _ _); [|discriminate].
    intros E. apply to_line_end_piece in E.
    eapply subseq_trans; [exact E|].
    eapply subseq_trans; [apply subseq_skipn | apply subseq_dropwhile].
Qed.

Lemma match_ijI_piece : leaves_piece match_ijI.
Proof.
  intros s r. unfold match_ijI.
  destruct s as [|c [|d x]]; try discriminate.
  destruct (_ && _); [|discriminate].
  intros E. apply to_line_end_piece in E.
  now constructor; constructor.
Qed.

Lemma sub_to_end_piece m (s : pystr) :
  leaves_piece m -> subseq (sub_to_end m s) s.
Proof.
  intros Hm. induction s as [|c t IH]; simpl.
  - destruct (m []) eqn:E; [now apply Hm | constructor].
  - destruct (m (c :: t)) eqn:E; [now apply Hm|].
    now constructor.
Qed.

Lemma sub_leading_digit_piece (s : pystr) : subseq (sub_leading_digit s) s.
Proof.
  destruct s as [|c [|d t]]; simpl; try apply subseq_refl.
  destruct (_ && _); [constructor|]; apply subseq_refl.
Qed.

Lemma drop_leading_letter_piece U (s : pystr) :
  subseq (drop_leading_letter U s) s.
Proof.
  unfold drop_leading_letter.
  destruct s as [|c0 [|c1 [|c2 t]]]; try apply subseq_refl.
  repeat match goal with
         | |- subseq (if ?b then _ else _) _ => destruct b
         end; try apply subseq_refl; constructor; apply subseq_refl.
Qed.

Lemma artifact_rules_piece U (s : pystr) : subseq (artifact_rules U s) s.
Proof.
  unfold artifact_rules.
  eapply subseq_trans; [apply drop_leading_letter_piece|].
  eapply subseq_trans; [apply sub_leading_digit_piece|].
  eapply subseq_trans; [apply sub_to_end_piece, match_ijI_piece|].
  eapply subseq_trans; [apply sub_to_end_piece, match_kIM_piece|].
  eapply subseq_trans; [apply sub_to_end_piece, match_NSMutable_piece|].
  eapply subseq_trans; [apply sub_to_end_piece, match_NSDictionary_piece|].
  apply subseq_dropwhile.
Qed.

Lemma sub_spaces_piece (s : pystr) : subseq (sub_spaces s) s.
Proof.
  induction s as [|c t IH]; [constructor|].
  destruct t as [|d t]; [apply subseq_refl|].
  change (sub_spaces (c :: d :: t))
    with (if (c =? 32) && (d =? 32) then sub_spaces (d :: t)
          else c :: sub_spaces (d :: t)).
  destruct (_ && _); constructor; assumption.
Qed.

Lemma strip_piece (s : pystr) : subseq (strip s) s.
Proof.
  destruct (strip_split s) as (a & b & E). rewrite E at 2.
  eapply subseq_trans; [apply subseq_app_l | apply subseq_app_r].
Qed.

Lemma rewritten_piece U (s : pystr) : subseq (rewritten U s) (replace_object s).
Proof.
  unfold rewritten.
  eapply subseq_trans; [apply strip_piece|].
  eapply subseq_trans; [apply sub_spaces_piece|].
  eapply subseq_trans; [apply artifact_rules_piece|].
  apply subseq_filter.
Qed.

(** X1.  [clean_message] only removes characters: what it returns is the
    text with each U+FFFC written out as [[image]] and then some
    characters dropped, none added, none moved.  On a text without U+FFFC
    the result is a piece of the text itself and is no longer than it. *)
Theorem clean_message_removes_only (U : UnicodeData) (s t : pystr) :
  clean_message U (Some s) = Some t ->
  subseq t (replace_object s)
  /\ (~ In 0xFFFC s ->
      subseq t s /\ (List.length t <= List.length s)%nat).
Proof.
  intros E.
  assert (H : subseq t (replace_object s)).
  { destruct (clean_message_cases U s) as [[E' H] | [E' _]];
      rewrite E in E'; injection E' as ->.
    - destruct H as [-> | [-> | ->]]; apply subseq_refl.
    - apply rewritten_piece. }
  split; [exact H|].
  intros Hn. rewrite replace_object_fixed in H.
  - split; [exact H | now apply subseq_length].
  - apply Forall_forall. intros c Hc ->. now apply Hn.
Qed.

Lemma clean_message_removes_only_witness :
  clean_message ascii_tables (Some (lit "  3dOMG  wow iIxyz"))
    = Some (lit "OMG wow")
  /\ ~ In 0xFFFC (lit "  3dOMG  wow iIxyz")
  /\ subseq (lit "OMG wow") (lit "  3dOMG  wow iIxyz").
Proof.
  assert (Hn : ~ In 0xFFFC (lit "  3dOMG  wow iIxyz")).
  { simpl. intros H. repeat (destruct H as [H | H]; [discriminate|]).
    exact H. }
  split; [reflexivity|]. split; [exact Hn|].
  exact (proj1 (proj2 (@clean_message_removes_only ascii_tables
           (lit "  3dOMG  wow iIxyz") (lit "OMG wow") eq_refl) Hn)).
Defined.

(** ** What [clean_message] lets through and what it leaves alone *)

Lemma keep_char_clean U (c : pychar) :
  keep_char U c = true /\ c <> 0xFFFC <-> clean_char U c.
Proof.
  unfold keep_char, clean_char.
  rewrite !orb_true_iff, !N.eqb_eq. tauto.
Qed.

(** X2.  A text that went through the rewriting (any string but the two
    sentinels) comes out made of printable characters, newlines,
    carriage returns and tabs only, and without U+FFFC. *)
Theorem clean_message_chars (U : UnicodeData) (s t : pystr) :
  s <> BINARY_DATA -> s <> NO_TEXT ->
  clean_message U (Some s) = Some t ->
  Forall (clean_char U) t.
Proof.
  intros H1 H2 E.
  destruct (clean_message_cases U s) as [[E' H] | [E' _]];
    rewrite E in E'; injection E' as ->.
  - destruct H as [-> | [-> | ->]]; [constructor | contradiction..].
  - eapply Forall_impl; [|apply rewritten_chars].
    intros c Hc. now apply keep_char_clean.
Qed.

Lemma clean_message_chars_witness :
  lit "a" ++ [7; 0xFFFC; 9] ++ lit "b" <> BINARY_DATA
  /\ lit "a" ++ [7; 0xFFFC; 9] ++ lit "b" <> NO_TEXT
  /\ clean_message ascii_tables (Some (lit "a" ++ [7; 0xFFFC; 9] ++ lit "b"))
     = Some (lit "a[image]" ++ [9] ++ lit "b")
  /\ Forall (clean_char ascii_tables) (lit "a[image]" ++ [9] ++ lit "b").
Proof.
  split; [discriminate|]. split; [discriminate|]. split; [reflexivity|].
  apply (@clean_message_chars ascii_tables
           (lit "a" ++ [7; 0xFFFC; 9] ++ lit "b"));
    [discriminate | discriminate | reflexivity].
Defined.

(** X3.  A text made of format codes and whitespace only is cleaned to
    the empty string. *)
Theorem clean_message_format_codes (U : UnicodeData) (s : pystr) :
  Forall (fun c => format_code c = true) s ->
  clean_message U (Some s) = Some [].
Proof.
  intros F.
  destruct (clean_message_cases U s) as [[E H] | [E _]]; rewrite E.
  - destruct H as [-> | [-> | ->]]; [reflexivity | |];
      inversion F as [|c l Hc _]; discriminate.
  - f_equal. unfold rewritten.
    rewrite replace_object_fixed.
    + assert (Hf : Forall (fun c => format_code c = true)
                     (filter (keep_char U) s))
        by (eapply subseq_Forall; [apply subseq_filter | exact F]).
      unfold artifact_rules. rewrite (dropwhile_all _ Hf). reflexivity.
    + eapply Forall_impl; [|exact F]. intros c Hc ->. discriminate.
Qed.

Lemma clean_message_format_codes_witness :
  Forall (fun c => format_code c = true) (lit " +!.. ;#  ")
  /\ clean_message ascii_tables (Some (lit " +!.. ;#  ")) = Some [].
Proof.
  assert (F : Forall (fun c => format_code c = true) (lit " +!.. ;#  "))
    by (repeat constructor).
  split; [exact F|].
  exact (@clean_message_format_codes ascii_tables _ F).
Defined.

Lemma filter_same {A} (p : A -> bool) (l : list A) :
  filter p l = l -> Forall (fun x => p x = true) l.
Proof.
  intros E. apply Forall_forall. intros x Hx.
  rewrite <- E in Hx. now apply filter_In in Hx.
Qed.

Lemma replace_object_length (s : pystr) :
  (List.length s <= List.length (replace_object s))%nat.
Proof.
  unfold replace_object. induction s as [|c t IH]; simpl; [lia|].
  rewrite length_app. destruct (c =? 0xFFFC); simpl; lia.
Qed.

(** X4.  The texts that [clean_message] returns unchanged are the empty
    string, the two sentinels, and the texts made of characters it lets
    through, with no whitespace at either end, no two consecutive spaces,
    and nothing for the artifact rules to remove. *)
Theorem clean_message_unchanged_iff (U : UnicodeData) (s : pystr) :
  clean_message U (Some s) = Some s <->
  s = [] \/ s = BINARY_DATA \/ s = NO_TEXT
  \/ (Forall (clean_char U) s
      /\ (forall c r, s = c :: r -> isspace c = false)
      /\ (forall r c, s = r ++ [c] -> isspace c = false)
      /\ (forall a b, s <> a ++ 32 :: 32 :: b)
      /\ artifact_rules U s = s).
Proof.
  split.
  - intros E.
    destruct (clean_message_cases U s) as [[_ H] | [E' _]]; [tauto|].
    rewrite E in E'. injection E' as E'.
    right. right. right.
    pose proof (rewritten_chars U s) as Hc. rewrite <- E' in Hc.
    assert (Hobj : replace_object s = s).
    { apply replace_object_fixed.
      eapply Forall_impl; [|exact Hc]. now intros c [_ H]. }
    unfold rewritten in E'. rewrite Hobj in E'.
    set (x1 := filter (keep_char U) s) in *.
    set (x2 := artifact_rules U x1) in *.
    set (x3 := sub_spaces x2) in *.
    assert (H3 : subseq s x3) by (rewrite E' at 1; apply strip_piece).
    assert (H32 : subseq x3 x2) by apply sub_spaces_piece.
    assert (H21 : subseq x2 x1) by apply artifact_rules_piece.
    assert (H10 : subseq x1 s) by apply subseq_filter.
    assert (E1 : x1 = s).
    { apply subseq_antisym; [exact H10|].
      eapply subseq_trans; [exact H3|].
      eapply subseq_trans; [exact H32 | exact H21]. }
    assert (E2 : x2 = s).
    { apply subseq_antisym.
      - eapply subseq_trans; [exact H21 | exact H10].
      - eapply subseq_trans; [exact H3 | exact H32]. }
    assert (E3 : x3 = s).
    { apply subseq_antisym; [|exact H3].
      eapply subseq_trans; [exact H32|].
      eapply subseq_trans; [exact H21 | exact H10]. }
    assert (Es : strip s = s) by (rewrite <- E3 at 1; symmetry; exact E').
    split; [|split; [|split; [|split]]].
    + eapply Forall_impl; [|exact Hc]. intros c. apply keep_char_clean.
    + intros c r E0. apply (@strip_head s r). now rewrite Es.
    + intros r c E0. apply (@strip_last s r). now rewrite Es.
    + change (double_space_free s). rewrite <- E3. apply sub_spaces_free.
    + unfold x2 in E2. rewrite E1 in E2. exact E2.
  - intros [-> | [-> | [-> | (Hc & Hh & Hl & Hf & Ha)]]];
      [reflexivity | reflexivity | reflexivity |].
    destruct (clean_message_cases U s) as [[E _] | [E _]]; [exact E|].
    rewrite E. f_equal. unfold rewritten.
    rewrite replace_object_fixed
      by (eapply Forall_impl; [|exact Hc]; now intros c [_ H]).
    rewrite filter_fixed.
    + rewrite Ha, sub_spaces_fixed by exact Hf. now apply strip_fixed.
    + eapply Forall_impl; [|exact Hc]. intros c H.
      now apply keep_char_clean in H.
Qed.

(** ** [decode_attributed_body]: the chain of methods *)

(** X5.  Method 1 decides the result only when the unarchiver yields a
    string that is not empty; when it raises, finds no string or finds
    the empty string, the result is the one computed without PyObjC. *)
Theorem decode_pyobjc_influence
  (U : UnicodeData) (unarchive : pybytes -> unarchived) (data : pybytes) :
  data <> [] ->
  decode_attributed_body U (Some unarchive) data
  = match unarchive data with
    | HasString (c :: t) => Some (c :: t)
    | _ => decode_attributed_body U None data
    end.
Proof.
  intros Hd. destruct data as [|b data]; [contradiction|].
  unfold decode_attributed_body, method_pyobjc.
  destruct (unarchive (b :: data)) as [| |[|c t]]; reflexivity.
Qed.

Lemma decode_pyobjc_influence_witness :
  blit "xy" <> []
  /\ decode_attributed_body ascii_tables
       (Some (fun d => if (len d <? 2)%Z then Raises else HasString (lit "rich")))
       (blit "xy")
     = Some (lit "rich").
Proof.
  split; [discriminate|].
  exact (@decode_pyobjc_influence ascii_tables
           (fun d => if (len d <? 2)%Z then Raises else HasString (lit "rich"))
           (blit "xy") ltac:(discriminate)).
Defined.

Lemma method_marker_absent (data : pybytes) :
  contains NSString data = false -> method_marker data = None.
Proof. intros H. unfold method_marker. now rewrite H. Qed.

(** X6.  A blob of at most 50 bytes that does not contain the marker, and
    for which method 1 gives nothing, is decoded to the sentinel. *)
Theorem decode_short_blob
  (U : UnicodeData) (objc : PyObjC) (data : pybytes) :
  data <> [] ->
  method_pyobjc objc data = None ->
  contains NSString data = false ->
  (len data <= 50)%Z ->
  decode_attributed_body U objc data = Some BINARY_DATA.
Proof.
  intros Hd H1 H2 Hl. destruct data as [|b data]; [contradiction|].
  rewrite decode_direct_result by auto using method_marker_absent.
  apply Z.leb_le in Hl. now rewrite Hl.
Qed.

Lemma decode_short_blob_witness :
  blit "bplist00 junk" <> []
  /\ method_pyobjc (Some (fun _ => NoString)) (blit "bplist00 junk") = None
  /\ contains NSString (blit "bplist00 junk") = false
  /\ (len (blit "bplist00 junk") <= 50)%Z
  /\ decode_attributed_body ascii_tables (Some (fun _ => NoString))
       (blit "bplist00 junk") = Some BINARY_DATA.
Proof.
  assert (Hl : (len (blit "bplist00 junk") <= 50)%Z) by (vm_compute; discriminate).
  split; [discriminate|]. split; [reflexivity|]. split; [reflexivity|].
  split; [exact Hl|].
  exact (@decode_short_blob ascii_tables (Some (fun _ => NoString))
           (blit "bplist00 junk") ltac:(discriminate) eq_refl eq_refl Hl).
Defined.

Lemma strip_nil_iff (x : pystr) :
  strip x = [] <-> Forall (fun c => isspace c = true) x.
Proof.
  unfold strip, lstrip. split.
  - intros E.
    destruct (dropwhile_split isspace x) as [a [Ea Fa]].
    destruct (rstrip_split (dropwhile isspace x)) as [b [Eb Fb]].
    rewrite E in Eb. simpl in Eb. rewrite Eb in Ea. rewrite Ea.
    apply Forall_app. now split.
  - intros F. now rewrite dropwhile_all.
Qed.

Lemma method_pyobjc_nonempty (objc : PyObjC) (data : pybytes) :
  method_pyobjc objc data <> Some [].
Proof.
  unfold method_pyobjc. destruct objc as [f|]; [|discriminate].
  destruct (f data) as [| |[|c t]]; discriminate.
Qed.

Lemma method_marker_nonempty (data : pybytes) : method_marker data <> Some [].
Proof.
  unfold method_marker.
  destruct (contains _ _); [|discriminate].
  destruct (_ <? _)%Z; [|discriminate].
  destruct (_ >? _)%Z; [|discriminate].
  destruct (utf8_decode_ignore _); discriminate.
Qed.

(** X7.  The decoder returns the empty string in one case only: methods 1
    and 2 gave nothing, the blob has more than 50 bytes, and what the
    filter keeps of the text from offset 50 is not empty but is all
    whitespace.  Methods 1 and 2 never return the empty string. *)
Theorem decode_empty_iff
  (U : UnicodeData) (objc : PyObjC) (data : pybytes) :
  decode_attributed_body U objc data = Some [] <->
  method_pyobjc objc data = None
  /\ method_marker data = None
  /\ (50 < len data)%Z
  /\ filter (keep_char U) (utf8_decode_ignore (skipn 50 data)) <> []
  /\ Forall (fun c => isspace c = true)
       (filter (keep_char U) (utf8_decode_ignore (skipn 50 data))).
Proof.
  destruct data as [|b data].
  - split; [discriminate|]. intros (_ & _ & H & _). unfold len in H.
    simpl in H. lia.
  - pose proof (@method_pyobjc_nonempty objc (b :: data)) as N1.
    pose proof (@method_marker_nonempty (b :: data)) as N2.
    destruct (method_pyobjc objc (b :: data)) as [t1|] eqn:E1.
    { split.
      - unfold decode_attributed_body. rewrite E1. congruence.
      - intros [H _]. discriminate. }
    destruct (method_marker (b :: data)) as [t2|] eqn:E2.
    { split.
      - unfold decode_attributed_body. rewrite E1, E2. congruence.
      - intros (_ & H & _). discriminate. }
    rewrite decode_direct_result by assumption.
    destruct (len (b :: data) <=? 50)%Z eqn:El.
    + apply Z.leb_le in El. split; [discriminate|].
      intros (_ & _ & H & _). lia.
    + apply Z.leb_gt in El.
      destruct (filter _ _) as [|c t] eqn:Ef.
      * split; [discriminate|]. intros (_ & _ & _ & H & _). contradiction.
      * split.
        -- intros E. injection E as E. apply strip_nil_iff in E.
           repeat split; auto. discriminate.
        -- intros (_ & _ & _ & _ & F). f_equal. now apply strip_nil_iff.
Qed.

(** ** The classifiers *)

Lemma rstrip_app_space (s ws : pystr) :
  Forall (fun c => isspace c = true) ws -> rstrip (s ++ ws) = rstrip s.
Proof.
  intros F. unfold rstrip. f_equal. rewrite rev_app_distr.
  apply Forall_rev in F. induction F as [|c l Hc _ IH]; simpl; [reflexivity|].
  now rewrite Hc.
Qed.

(** X8.  Whitespace after the text does not change whether it is a
    quoted message. *)
Theorem is_quoted_message_trailing_space (s ws : pystr) :
  Forall (fun c => isspace c = true) ws ->
  is_quoted_message (Some (s ++ ws)) = is_quoted_message (Some s).
Proof.
  intros F.
  assert (E : forall x : pystr,
             is_quoted_message (Some x)
             = match rev (rstrip x) with
               | last :: _ => existsb (N.eqb last) QUOTE_CHARS
               | [] => false
               end).
  { intros [|c x]; reflexivity. }
  rewrite !E. now rewrite rstrip_app_space.
Qed.

Lemma is_quoted_message_trailing_space_witness :
  Forall (fun c => isspace c = true) [32; 10; 0xA0]
  /\ is_quoted_message (Some (lit "so he said 'no'" ++ [32; 10; 0xA0])) = true.
Proof.
  assert (F : Forall (fun c => isspace c = true) [32; 10; 0xA0])
    by (repeat constructor).
  split; [exact F|].
  rewrite (@is_quoted_message_trailing_space (lit "so he said 'no'") _ F).
  reflexivity.
Defined.

Lemma match_word_space_app (w s t : pystr) :
  match_word_space w s = true -> match_word_space w (s ++ t) = true.
Proof.
  intros H. apply match_word_space_spec in H.
  destruct H as (c & rest & -> & Hc).
  apply match_word_space_spec. exists c, (rest ++ t).
  split; [|exact Hc]. now rewrite <- app_assoc.
Qed.

(** X9.  Whether a text is a reaction is decided by its beginning:
    whatever is appended to a reaction leaves it a reaction. *)
Theorem is_reaction_message_extends (s t : pystr) :
  is_reaction_message (Some s) = true ->
  is_reaction_message (Some (s ++ t)) = true.
Proof.
  destruct s as [|c s]; [discriminate|].
  unfold is_reaction_message. simpl truthy. simpl negb. cbv iota.
  rewrite !existsb_exists. intros (w & Hin & Hm).
  exists w. split; [exact Hin|].
  now apply (@match_word_space_app w (c :: s) t).
Qed.

Lemma is_reaction_message_extends_witness :
  is_reaction_message (Some (lit "Laughed at")) = true
  /\ is_reaction_message (Some (lit "Laughed at" ++ lit " a movie")) = true.
Proof.
  split; [reflexivity|].
  exact (@is_reaction_message_extends (lit "Laughed at") (lit " a movie")
           eq_refl).
Defined.

(** ** The stored text of a row *)

(** X10.  Whatever the row holds, the text stored as [decoded_text] is a
    string, never [None], with no whitespace at either end and no two
    consecutive spaces. *)
Theorem cleaned_is_clean_string
  (U : UnicodeData) (objc : PyObjC) (row : message_row) :
  exists t,
    cleaned U objc row = Some t
    /\ (forall c r, t = c :: r -> isspace c = false)
    /\ (forall r c, t = r ++ [c] -> isspace c = false)
    /\ (forall a b, t <> a ++ 32 :: 32 :: b).
Proof.
  unfold cleaned, clean_or_empty.
  destruct (decoded U objc row) as [[|c s]|].
  - exists []. repeat split; try discriminate.
    + intros r c E. destruct r; discriminate.
    + intros a b E. destruct a; discriminate.
  - simpl truthy. cbv iota.
    destruct (clean_message_result U (c :: s)) as (t & E & [H1 H2] & H3).
    exists t. auto.
  - exists []. repeat split; try discriminate.
    + intros r c E. destruct r; discriminate.
    + intros a b E. destruct a; discriminate.
Qed.

(** X11.  A row with no plain text whose blob the decoder gives up on is
    stored with the sentinel as its text, unchanged by the cleaner, and
    is flagged neither as a reaction nor as a quote. *)
Theorem undecodable_row
  (U : UnicodeData) (objc : PyObjC) (row : message_row) (b : byte)
  (blob : pybytes) :
  truthy (m_text row) = false ->
  m_attributedBody row = Some (b :: blob) ->
  decode_attributed_body U objc (b :: blob) = Some BINARY_DATA ->
  cleaned U objc row = Some BINARY_DATA
  /\ reaction U objc row = 0%Z
  /\ quote U objc row = 0%Z.
Proof.
  intros Ht Hb Hd.
  assert (E : cleaned U objc row = Some BINARY_DATA).
  { unfold cleaned, decoded. rewrite Ht, Hb. simpl blob_truthy. cbv iota.
    rewrite Hd. reflexivity. }
  unfold reaction, quote. rewrite E. repeat split.
Qed.

Lemma undecodable_row_witness :
  truthy (m_text junk_row) = false
  /\ decode_attributed_body ascii_tables None (blit "bplist00 junk")
     = Some BINARY_DATA
  /\ cleaned ascii_tables None junk_row = Some BINARY_DATA
  /\ reaction ascii_tables None junk_row = 0%Z
  /\ quote ascii_tables None junk_row = 0%Z.
Proof.
  split; [reflexivity|]. split; [reflexivity|].
  exact (@undecodable_row ascii_tables None junk_row _ _
           eq_refl eq_refl eq_refl).
Defined.

(** X12.  A row with neither a plain text nor bytes in its blob is stored
    with the empty string as its text and is flagged neither as a
    reaction nor as a quote. *)
Theorem empty_row
  (U : UnicodeData) (objc : PyObjC) (row : message_row) :
  truthy (m_text row) = false ->
  blob_truthy (m_attributedBody row) = false ->
  cleaned U objc row = Some []
  /\ reaction U objc row = 0%Z
  /\ quote U objc row = 0%Z.
Proof.
  intros Ht Hb.
  assert (E : cleaned U objc row = Some []).
  { unfold cleaned, decoded. rewrite Ht.
    destruct (m_attributedBody row) as [[|? ?]|];
      [reflexivity | discriminate | reflexivity]. }
  unfold reaction, quote. rewrite E. repeat split.
Qed.

Lemma empty_row_witness :
  truthy (m_text blank_row) = false
  /\ blob_truthy (m_attributedBody blank_row) = false
  /\ cleaned ascii_tables None blank_row = Some []
  /\ reaction ascii_tables None blank_row = 0%Z
  /\ quote ascii_tables None blank_row = 0%Z.
Proof.
  split; [reflexivity|]. split; [reflexivity|].
  exact (@empty_row ascii_tables None blank_row eq_refl eq_refl).
Defined.

(** ** [apple_to_unix]: where the rounding shows *)

Local Open Scope Z_scope.

Lemma scaled_bounds (n d : Z) :
  0 < n -> 0 < d ->
  let (sn, sd) := scale n d (ulp_exponent n d) in
  0 < sd /\ 2 ^ 52 * sd <= sn < 2 ^ 53 * sd.
Proof.
  intros Hn Hd. pose proof (ulp_exponent_spec Hn Hd) as H.
  destruct (scale n d (ulp_exponent n d)) as [sn sd].
  destruct H as [Hsd [H1 H2]]. split; [exact Hsd|].
  pose proof (Z.div_mod sn sd ltac:(lia)).
  pose proof (Z.mod_pos_bound sn sd Hsd). nia.
Qed.

(** A fraction below [2^(53-g)] has its last place at [2^(-g)] or finer. *)
Lemma ulp_exponent_le (n d g : Z) :
  0 < n -> 0 < d -> 0 <= g <= 53 -> n < 2 ^ (53 - g) * d ->
  ulp_exponent n d <= - g.
Proof.
  intros Hn Hd Hg Hlt. pose proof (scaled_bounds Hn Hd) as H.
  set (e := ulp_exponent n d) in *. unfold scale in H.
  destruct (Z.le_gt_cases e (- g)) as [Hle | Hgt]; [exact Hle|]. exfalso.
  destruct (0 <=? e) eqn:E0.
  - apply Z.leb_le in E0. destruct H as [_ [H1 _]].
    assert (Hp : 2 ^ (53 - g) <= 2 ^ 52 * 2 ^ e).
    { rewrite <- Z.pow_add_r by lia. apply Z.pow_le_mono_r; lia. }
    nia.
  - apply Z.leb_gt in E0. destruct H as [_ [H1 _]].
    assert (Hp : 2 ^ (53 - g) * 2 ^ (- e) <= 2 ^ 52).
    { rewrite <- Z.pow_add_r by lia. apply Z.pow_le_mono_r; lia. }
    assert (0 < 2 ^ (- e)) by (apply Z.pow_pos_nonneg; lia).
    nia.
Qed.

(** Rounding cannot step over a multiple of [2^(-g)] that binary64
    represents: a positive fraction below [2^(53-g)] that lies between
    [a / 2^g] and [b / 2^g] rounds to a value between the same two. *)
Lemma round_pos_grid (n d g a b : Z) :
  0 < n -> 0 < d -> 0 <= g <= 53 -> n < 2 ^ (53 - g) * d ->
  a * d <= n * 2 ^ g <= b * d ->
  0 < fden (round_pos n d)
  /\ a * fden (round_pos n d) <= fnum (round_pos n d) * 2 ^ g
     <= b * fden (round_pos n d).
Proof.
  intros Hn Hd Hg Hlt [Ha Hb].
  pose proof (ulp_exponent_le Hn Hd Hg Hlt) as He.
  unfold round_pos. set (e := ulp_exponent n d) in *.
  assert (Hpg : 0 < 2 ^ g) by (apply Z.pow_pos_nonneg; lia).
  unfold scale. destruct (0 <=? e) eqn:E0.
  - apply Z.leb_le in E0. assert (e = 0) as -> by lia.
    assert (g = 0) as -> by lia.
    simpl fnum. simpl fden. change (2 ^ 0) with 1 in *.
    rewrite !Z.mul_1_r in *.
    split; [lia|]. apply round_half_even_between; lia.
  - apply Z.leb_gt in E0. simpl fnum. simpl fden.
    set (h := - e - g).
    assert (Hh : 0 < 2 ^ h) by (apply Z.pow_pos_nonneg; lia).
    assert (Ep : 2 ^ (- e) = 2 ^ h * 2 ^ g).
    { rewrite <- Z.pow_add_r by lia. f_equal. lia. }
    assert (Hm : a * 2 ^ h <= round_half_even (n * 2 ^ (- e)) d <= b * 2 ^ h).
    { apply round_half_even_between; [exact Hd|]. rewrite Ep. nia. }
    destruct Hm as [Hm1 Hm2].
    set (m := round_half_even (n * 2 ^ (- e)) d) in *.
    apply (Z.mul_le_mono_nonneg_r _ _ (2 ^ g)) in Hm1; [|lia].
    apply (Z.mul_le_mono_nonneg_r _ _ (2 ^ g)) in Hm2; [|lia].
    rewrite Ep. split; [nia|]. lia.
Qed.

(** X13.  For a timestamp after the Apple epoch, [apple_to_unix] is
    exactly [floor(timestamp / 1_000_000_000) + 978307200] unless the
    timestamp lies in the last 16 microseconds of its second: the
    rounding of the two float operations never carries over a multiple of
    [2^(-16)] seconds. *)
Theorem apple_to_unix_exact (ts : Z) :
  0 < ts < 2 ^ 63 ->
  ts mod 1000000000 <= 999984741 ->
  apple_to_unix (Some ts) = Some (ts / 1000000000 + 978307200).
Proof.
  intros Hts Hf.
  change (2 ^ 63) with 9223372036854775808 in Hts.
  assert (Hd : 0 < 1000000000) by lia.
  pose proof (Z.div_mod ts 1000000000 ltac:(lia)) as Hdm.
  pose proof (Z.mod_pos_bound ts 1000000000 Hd) as Hr.
  unfold apple_to_unix.
  assert (Hnz : (ts =? 0) = false) by (apply Z.eqb_neq; lia).
  rewrite Hnz. f_equal.
  set (d := 1000000000) in *. set (k := ts / d) in *.
  set (f := ts mod d) in *.
  assert (Hk : 0 <= k < 17179869184) by (subst d; lia).
  assert (H37 : 2 ^ (53 - 16) = 137438953472) by reflexivity.
  assert (H16 : 2 ^ 16 = 65536) by reflexivity.
  assert (Hpos : forall n, 0 < n -> round64 n = round_pos n).
  { intros n Hn. unfold round64.
    assert (E1 : (n =? 0) = false) by (apply Z.eqb_neq; lia).
    assert (E2 : (0 <? n) = true) by (apply Z.ltb_lt; lia).
    now rewrite E1, E2. }
  unfold true_divide. rewrite (Hpos ts) by lia.
  destruct (@round_pos_grid ts d 16 (k * 65536) ((k + 1) * 65536 - 1))
    as [Px [Hx1 Hx2]];
    [lia | exact Hd | lia | rewrite H37; subst d; lia
     | rewrite H16; subst d; lia |].
  set (x := round_pos ts d) in *. rewrite H16 in Hx1, Hx2.
  unfold float_add_int, APPLE_EPOCH.
  assert (Hn : 0 < fnum x + 978307200 * fden x) by nia.
  rewrite (Hpos _ Hn).
  destruct (@round_pos_grid (fnum x + 978307200 * fden x) (fden x) 16
              ((k + 978307200) * 65536) ((k + 978307200 + 1) * 65536 - 1))
    as [Py [Hy1 Hy2]];
    [exact Hn | exact Px | lia | rewrite H37; nia | rewrite H16; nia |].
  set (y := round_pos _ (fden x)) in *. rewrite H16 in Hy1, Hy2.
  unfold int_of_float.
  assert (Hfy : 0 <= fnum y) by nia.
  rewrite Z.quot_div_nonneg by lia.
  assert (Hq : k + 978307200 <= fnum y / fden y < k + 978307200 + 1).
  { apply div_between; [exact Py|]. nia. }
  lia.
Qed.

Lemma apple_to_unix_exact_witness :
  0 < 694224000999984741 < 2 ^ 63
  /\ 694224000999984741 mod 1000000000 <= 999984741
  /\ apple_to_unix (Some 694224000999984741) = Some 1672531200.
Proof.
  assert (H1 : 0 < 694224000999984741 < 2 ^ 63) by (simpl; lia).
  assert (H2 : 694224000999984741 mod 1000000000 <= 999984741)
    by (vm_compute; discriminate).
  split; [exact H1|]. split; [exact H2|].
  exact (@apple_to_unix_exact 694224000999984741 H1 H2).
Defined.

(** ** [apple_to_unix] keeps the order of the timestamps *)

Lemma div_cross_mono (n1 d1 n2 d2 : Z) :
  0 < d1 -> 0 < d2 -> n1 * d2 <= n2 * d1 -> n1 / d1 <= n2 / d2.
Proof.
  intros H1 H2 H.
  pose proof (Z.div_mod n1 d1 ltac:(lia)) as E1.
  pose proof (Z.mod_pos_bound n1 d1 H1) as B1.
  pose proof (Z.div_mod n2 d2 ltac:(lia)) as E2.
  pose proof (Z.mod_pos_bound n2 d2 H2) as B2.
  set (q1 := n1 / d1) in *. set (q2 := n2 / d2) in *.
  set (r1 := n1 mod d1) in *. set (r2 := n2 mod d2) in *.
  destruct (Z.le_gt_cases q1 q2) as [Hle | Hgt]; [exact Hle|]. exfalso.
  assert (Hq : q2 + 1 <= q1) by lia.
  assert (d1 * d2 * (q2 + 1) <= d1 * d2 * q1) by nia.
  nia.
Qed.

Lemma round_half_even_mono (n1 d1 n2 d2 : Z) :
  0 < d1 -> 0 < d2 -> n1 * d2 <= n2 * d1 ->
  round_half_even n1 d1 <= round_half_even n2 d2.
Proof.
  intros H1 H2 H.
  pose proof (@div_cross_mono n1 d1 n2 d2 H1 H2 H) as Hq.
  unfold round_half_even.
  pose proof (Z.div_mod n1 d1 ltac:(lia)) as E1.
  pose proof (Z.mod_pos_bound n1 d1 H1) as B1.
  pose proof (Z.div_mod n2 d2 ltac:(lia)) as E2.
  pose proof (Z.mod_pos_bound n2 d2 H2) as B2.
  set (q1 := n1 / d1) in *. set (q2 := n2 / d2) in *.
  set (r1 := n1 mod d1) in *. set (r2 := n2 mod d2) in *.
  assert (Hlo : q2 <= (if 2 * r2 <? d2 then q2
                       else if d2 <? 2 * r2 then q2 + 1
                       else if Z.even q2 then q2 else q2 + 1))
    by (repeat match goal with |- context [if ?b then _ else _] =>
                 destruct b end; lia).
  assert (Hhi : (if 2 * r1 <? d1 then q1
                 else if d1 <? 2 * r1 then q1 + 1
                 else if Z.even q1 then q1 else q1 + 1) <= q1 + 1)
    by (repeat match goal with |- context [if ?b then _ else _] =>
                 destruct b end; lia).
  destruct (Z.eq_dec q1 q2) as [Eq | Nq]; [|lia].
  rewrite <- Eq in *. clear Hlo Hhi Hq.
  assert (Hr : r1 * d2 <= r2 * d1) by nia.
  destruct (2 * r1 <? d1) eqn:A1.
  - repeat match goal with |- context [if ?b then _ else _] =>
             destruct b end; lia.
  - apply Z.ltb_ge in A1.
    assert (A2 : (2 * r2 <? d2) = false) by (apply Z.ltb_ge; nia).
    rewrite A2. apply Z.ltb_ge in A2.
    destruct (d1 <? 2 * r1) eqn:B.
    + apply Z.ltb_lt in B.
      assert (B' : (d2 <? 2 * r2) = true) by (apply Z.ltb_lt; nia).
      rewrite B'. lia.
    + destruct (d2 <? 2 * r2); [destruct (Z.even q1); lia|].
      destruct (Z.even q1); lia.
Qed.

(** Below [2^52] the last place is a fraction: the rounded value is the
    rounded numerator over a power of two. *)
Lemma round_pos_small (n d : Z) :
  0 < n -> 0 < d -> n < 2 ^ 52 * d ->
  exists p,
    0 < p
    /\ round_pos n d = {| fnum := round_half_even (n * p) d; fden := p |}
    /\ 2 ^ 52 * d <= n * p < 2 ^ 53 * d
    /\ (exists j, 0 <= j /\ p = 2 ^ j).
Proof.
  intros Hn Hd Hlt.
  assert (He : ulp_exponent n d <= - (1))
    by (apply (@ulp_exponent_le n d 1); [lia | lia | lia | exact Hlt]).
  pose proof (scaled_bounds Hn Hd) as Hs.
  unfold round_pos. set (e := ulp_exponent n d) in *.
  unfold scale in *.
  assert (E0 : (0 <=? e) = false) by (apply Z.leb_gt; lia).
  rewrite E0 in *.
  exists (2 ^ (- e)).
  assert (0 < 2 ^ (- e)) by (apply Z.pow_pos_nonneg; lia).
  repeat split; try tauto; try lia.
  exists (- e). split; [lia | reflexivity].
Qed.

Lemma pow2_steps (i j : Z) :
  0 <= i -> i < j -> 2 * 2 ^ i <= 2 ^ j.
Proof.
  intros Hi Hij. rewrite <- Z.pow_succ_r by lia.
  apply Z.pow_le_mono_r; lia.
Qed.

Lemma round_pos_mono (n1 d1 n2 d2 : Z) :
  0 < n1 -> 0 < d1 -> 0 < n2 -> 0 < d2 ->
  n1 < 2 ^ 52 * d1 -> n2 < 2 ^ 52 * d2 ->
  n1 * d2 <= n2 * d1 ->
  fle (round_pos n1 d1) (round_pos n2 d2).
Proof.
  intros Hn1 Hd1 Hn2 Hd2 Hs1 Hs2 H.
  destruct (@round_pos_small n1 d1 Hn1 Hd1 Hs1)
    as (p1 & Hp1 & -> & [L1 U1] & (j1 & Hj1 & Ej1)).
  destruct (@round_pos_small n2 d2 Hn2 Hd2 Hs2)
    as (p2 & Hp2 & -> & [L2 U2] & (j2 & Hj2 & Ej2)).
  unfold fle. simpl fnum. simpl fden.
  assert (M1 : 2 ^ 52 <= round_half_even (n1 * p1) d1 <= 2 ^ 53)
    by (apply round_half_even_between; lia).
  assert (M2 : 2 ^ 52 <= round_half_even (n2 * p2) d2 <= 2 ^ 53)
    by (apply round_half_even_between; lia).
  set (m1 := round_half_even (n1 * p1) d1) in *.
  set (m2 := round_half_even (n2 * p2) d2) in *.
  change (2 ^ 53) with (2 * 2 ^ 52) in *.
  set (T := 2 ^ 52) in *. assert (HT : 0 < T) by (subst T; reflexivity).
  destruct (Z.lt_trichotomy j1 j2) as [Hlt | [Heq | Hgt]].
  - (* the first value has the coarser last place: it cannot be smaller *)
    exfalso.
    assert (Hp : 2 * p1 <= p2) by (subst p1 p2; now apply pow2_steps).
    assert (A : T * d1 * d2 <= n1 * p1 * d2) by nia.
    assert (B : n1 * p1 * d2 <= n2 * p1 * d1) by nia.
    assert (C : 2 * (n2 * p1 * d1) <= n2 * p2 * d1) by nia.
    assert (D : n2 * p2 * d1 < 2 * T * d2 * d1) by nia.
    nia.
  - assert (p1 = p2) by (subst; reflexivity). subst p2.
    assert (Hm : m1 <= m2).
    { apply round_half_even_mono; try assumption. nia. }
    nia.
  - assert (Hp : 2 * p2 <= p1) by (subst p1 p2; now apply pow2_steps).
    assert (A : m1 * p2 <= 2 * T * p2) by nia.
    assert (B : T * p1 <= m2 * p1) by nia.
    nia.
Qed.

Lemma round_pos_positive (n d : Z) :
  0 < n -> 0 < d -> n < 2 ^ 52 * d ->
  0 < fnum (round_pos n d) /\ 0 < fden (round_pos n d).
Proof.
  intros Hn Hd Hs.
  destruct (@round_pos_small n d Hn Hd Hs) as (p & Hp & -> & [L U] & _).
  simpl. split; [|exact Hp].
  assert (2 ^ 52 <= round_half_even (n * p) d <= 2 ^ 53)
    by (apply round_half_even_between; lia).
  change (2 ^ 52) with 4503599627370496 in *. lia.
Qed.

Lemma round64_mono (n1 d1 n2 d2 : Z) :
  0 < d1 -> 0 < d2 ->
  - (2 ^ 52 * d1) < n1 < 2 ^ 52 * d1 ->
  - (2 ^ 52 * d2) < n2 < 2 ^ 52 * d2 ->
  n1 * d2 <= n2 * d1 ->
  fle (round64 n1 d1) (round64 n2 d2).
Proof.
  intros Hd1 Hd2 Hs1 Hs2 H. unfold round64.
  destruct (Z.lt_trichotomy n1 0) as [N1 | [Z1 | P1]];
    destruct (Z.lt_trichotomy n2 0) as [N2 | [Z2 | P2]];
    repeat match goal with
           | H : ?n < 0 |- context [?n =? 0] =>
               replace (n =? 0) with false by (symmetry; apply Z.eqb_neq; lia);
               replace (0 <? n) with false by (symmetry; apply Z.ltb_ge; lia)
           | H : 0 < ?n |- context [?n =? 0] =>
               replace (n =? 0) with false by (symmetry; apply Z.eqb_neq; lia);
               replace (0 <? n) with true by (symmetry; apply Z.ltb_lt; lia)
           | H : ?n = 0 |- context [?n =? 0] =>
               replace (n =? 0) with true by (symmetry; apply Z.eqb_eq; lia)
           end;
    try (exfalso; nia).
  - (* both negative *)
    assert (Hm : fle (round_pos (- n2) d2) (round_pos (- n1) d1))
      by (apply round_pos_mono; lia).
    unfold fle, fneg in *. simpl. lia.
  - destruct (@round_pos_positive (- n1) d1) as [A B]; try lia.
    unfold fle, fneg. simpl. lia.
  - destruct (@round_pos_positive (- n1) d1) as [A B]; try lia.
    destruct (@round_pos_positive n2 d2) as [C D]; try lia.
    unfold fle, fneg. simpl. nia.
  - unfold fle. simpl. lia.
  - destruct (@round_pos_positive n2 d2) as [C D]; try lia.
    unfold fle. simpl. lia.
  - apply round_pos_mono; lia.
Qed.

Lemma quot_cross_mono (n1 d1 n2 d2 : Z) :
  0 < d1 -> 0 < d2 -> n1 * d2 <= n2 * d1 ->
  Z.quot n1 d1 <= Z.quot n2 d2.
Proof.
  intros H1 H2 H.
  destruct (Z.le_gt_cases 0 n1) as [P1 | N1].
  - assert (P2 : 0 <= n2) by nia.
    rewrite !Z.quot_div_nonneg by lia. now apply div_cross_mono.
  - replace n1 with (- (- n1)) by lia. rewrite Z.quot_opp_l by lia.
    rewrite (Z.quot_div_nonneg (- n1)) by lia.
    destruct (Z.le_gt_cases 0 n2) as [P2 | N2].
    + rewrite Z.quot_div_nonneg by lia.
      assert (0 <= - n1 / d1) by (apply Z.div_pos; lia).
      assert (0 <= n2 / d2) by (apply Z.div_pos; lia). lia.
    + replace n2 with (- (- n2)) by lia. rewrite Z.quot_opp_l by lia.
      rewrite (Z.quot_div_nonneg (- n2)) by lia.
      assert (- n2 / d2 <= - n1 / d1) by (apply div_cross_mono; lia).
      lia.
Qed.

(** X14.  [apple_to_unix] keeps the order of the timestamps: of two
    64-bit timestamps other than 0, the later one never gets the smaller
    number of seconds, whatever the rounding does. *)
Theorem apple_to_unix_monotone (ts1 ts2 : Z) :
  ts1 <> 0 -> ts2 <> 0 ->
  - 2 ^ 63 <= ts1 -> ts1 <= ts2 -> ts2 < 2 ^ 63 ->
  exists r1 r2,
    apple_to_unix (Some ts1) = Some r1
    /\ apple_to_unix (Some ts2) = Some r2
    /\ r1 <= r2.
Proof.
  intros Z1 Z2 Hlo Hle Hhi.
  unfold apple_to_unix.
  apply Z.eqb_neq in Z1, Z2. rewrite Z1, Z2.
  eexists. eexists. split; [reflexivity|]. split; [reflexivity|].
  change (2 ^ 63) with 9223372036854775808 in *.
  assert (H53 : 2 ^ 53 = 9007199254740992) by reflexivity.
  assert (H52 : 2 ^ 52 = 4503599627370496) by reflexivity.
  assert (Hd : 0 < 1000000000) by lia.
  assert (Hbetween : forall ts, - 9223372036854775808 <= ts < 9223372036854775808 ->
            exists k, - 17179869184 < k < 17179869184
                      /\ between k (true_divide ts 1000000000)).
  { intros ts Hts. exists (ts / 1000000000).
    pose proof (Z.div_mod ts 1000000000 ltac:(lia)).
    pose proof (Z.mod_pos_bound ts 1000000000 Hd).
    split; [lia|]. apply round64_between; rewrite ?H53; lia. }
  destruct (Hbetween ts1 ltac:(lia)) as (k1 & Hk1 & [Px1 Bx1]).
  destruct (Hbetween ts2 ltac:(lia)) as (k2 & Hk2 & [Px2 Bx2]).
  assert (Hx : fle (true_divide ts1 1000000000) (true_divide ts2 1000000000)).
  { apply round64_mono; rewrite ?H52; lia. }
  set (x1 := true_divide ts1 1000000000) in *.
  set (x2 := true_divide ts2 1000000000) in *.
  unfold fle in Hx.
  assert (Hy : fle (float_add_int x1 APPLE_EPOCH) (float_add_int x2 APPLE_EPOCH)).
  { unfold float_add_int, APPLE_EPOCH.
    apply round64_mono; rewrite ?H52; try assumption; nia. }
  assert (Py1 : 0 < fden (float_add_int x1 APPLE_EPOCH)).
  { apply (@float_add_int_between k1 APPLE_EPOCH x1);
      [split; assumption | |]; rewrite H53; unfold APPLE_EPOCH; lia. }
  assert (Py2 : 0 < fden (float_add_int x2 APPLE_EPOCH)).
  { apply (@float_add_int_between k2 APPLE_EPOCH x2);
      [split; assumption | |]; rewrite H53; unfold APPLE_EPOCH; lia. }
  unfold int_of_float. apply quot_cross_mono; assumption.
Qed.

Lemma apple_to_unix_monotone_witness :
  apple_to_unix (Some 999999939) = Some 978307200
  /\ apple_to_unix (Some 999999941) = Some 978307201
  /\ exists r1 r2,
       apple_to_unix (Some 999999939) = Some r1
       /\ apple_to_unix (Some 999999941) = Some r2
       /\ r1 <= r2.
Proof.
  split; [vm_compute; reflexivity|]. split; [vm_compute; reflexivity|].
  apply (@apple_to_unix_monotone 999999939 999999941);
    [discriminate | discriminate | | | ]; simpl; lia.
Defined.

(** ** [main]: the command line *)

Local Open Scope N_scope.

Lemma split_comma_fields (s : pystr) :
  List.length (split_comma s) = S (count_occ N.eq_dec s 44).
Proof.
  induction s as [|c t IH]; [reflexivity|].
  simpl split_comma. simpl count_occ.
  destruct (N.eqb_spec c 44) as [-> | Hc].
  - destruct (N.eq_dec 44 44); [|contradiction]. simpl. now rewrite IH.
  - destruct (N.eq_dec c 44); [contradiction|].
    destruct (split_comma t); simpl in *; [discriminate | exact IH].
Qed.

Lemma comprehension_map {A B} (f : A -> option B) (xs : list A) (ys : list B) :
  comprehension f xs = Some ys <-> map f xs = map Some ys.
Proof.
  revert ys. induction xs as [|x t IH]; intros ys; simpl.
  - split.
    + intros E. injection E as <-. reflexivity.
    + destruct ys; [reflexivity | discriminate].
  - destruct (f x) as [y|].
    + destruct (comprehension f t) as [ys'|].
      * split.
        -- intros E. injection E as <-. simpl. f_equal.
           now apply IH.
        -- destruct ys as [|y0 ys0]; [discriminate|]. simpl.
           intros E. injection E as -> E. apply IH in E.
           now injection E as ->.
      * split; [discriminate|].
        destruct ys as [|y0 ys0]; [discriminate|]. simpl.
        intros E. injection E as _ E. apply IH in E. discriminate.
    + split; [discriminate|]. destruct ys; discriminate.
Qed.

(** X15.  With a selector other than [all], [main] never stops on
    [No chat IDs found]: the selector always has at least one field.  It
    reaches [create_clean_database] only with the expanded paths and with
    one id for each comma-separated field, in order, each the [int] of
    the stripped field; a field that is not an integer raises. *)
Theorem main_explicit_ids
  (U : UnicodeData) (env : Environment)
  (prog arg1 arg2 chat_ids_arg : pystr) (more : list pystr) :
  lower U chat_ids_arg <> lit "all" ->
  main U env (prog :: arg1 :: arg2 :: chat_ids_arg :: more) <> ExitNoChatIds
  /\ forall source_db target_db chat_ids,
       main U env (prog :: arg1 :: arg2 :: chat_ids_arg :: more)
       = Created source_db target_db chat_ids ->
       source_db = expanduser env arg1
       /\ target_db = expanduser env arg2
       /\ map (fun x => py_int env (strip x)) (split_comma chat_ids_arg)
          = map Some chat_ids
       /\ List.length chat_ids = S (count_occ N.eq_dec chat_ids_arg 44).
Proof.
  intros Hall. unfold main.
  assert (E : str_eqb (lower U chat_ids_arg) (lit "all") = false).
  { destruct (str_eqb _ _) eqn:E; [|reflexivity].
    apply str_eqb_eq in E. contradiction. }
  rewrite E.
  destruct (path_exists env (expanduser env arg1));
    [|split; [discriminate | intros ? ? ? H; discriminate]].
  destruct (connect env (expanduser env arg1));
    [|split; [discriminate | intros ? ? ? H; discriminate]].
  simpl negb. cbv iota.
  destruct (parse_chat_ids env chat_ids_arg) as [ids|] eqn:Ep;
    [|split; [discriminate | intros ? ? ? H; discriminate]].
  unfold parse_chat_ids in Ep. apply comprehension_map in Ep.
  assert (Hlen : List.length ids = S (count_occ N.eq_dec chat_ids_arg 44)).
  { rewrite <- split_comma_fields.
    rewrite <- (length_map Some ids), <- Ep, length_map. reflexivity. }
  destruct ids as [|id ids]; [discriminate|].
  split; [discriminate|].
  intros s t l H. injection H as <- <- <-. auto.
Qed.

Lemma main_explicit_ids_witness :
  lower ascii_tables (lit "3, 1") <> lit "all"
  /\ main ascii_tables example_env
       [lit "create_clean_db.py"; lit "chat.db"; lit "out.db"; lit "3, 1"]
     = Created (lit "chat.db") (lit "out.db") [3; 1]%Z
  /\ List.length [3; 1]%Z = S (count_occ N.eq_dec (lit "3, 1") 44).
Proof.
  assert (H : lower ascii_tables (lit "3, 1") <> lit "all") by discriminate.
  split; [exact H|]. split; [reflexivity|].
  destruct (@main_explicit_ids ascii_tables example_env
              (lit "create_clean_db.py") (lit "chat.db") (lit "out.db")
              (lit "3, 1") [] H) as [_ Hc].
  exact (proj2 (proj2 (proj2 (Hc _ _ _ eq_refl)))).
Defined.

(** X16.  [main] prints the usage and exits exactly when fewer than
    three arguments follow the program name, and it reports a missing
    source database before it looks at the selector: whatever the third
    argument is, it is not parsed when the source does not exist. *)
Theorem main_early_exits
  (U : UnicodeData) (env : Environment) (argv : list pystr) :
  (main U env argv = ExitUsage <-> (List.length argv < 4)%nat)
  /\ (forall prog arg1 arg2 chat_ids_arg more,
        argv = prog :: arg1 :: arg2 :: chat_ids_arg :: more ->
        path_exists env (expanduser env arg1) = false ->
        main U env argv = ExitSourceNotFound (expanduser env arg1)).
Proof.
  split.
  - destruct argv as [|a0 [|a1 [|a2 [|a3 more]]]]; simpl List.length;
      try (split; [intros _; lia | reflexivity]).
    split; [|lia]. unfold main.
    destruct (path_exists _ _); [|discriminate].
    destruct (connect _ _); [|discriminate]. simpl negb. cbv iota.
    destruct (if str_eqb _ _ then _ else _) as [[|? ?]|]; discriminate.
  - intros prog arg1 arg2 a3 more -> H. unfold main. now rewrite H.
Qed.

Lemma main_early_exits_witness :
  path_exists example_env (expanduser example_env (lit "nope.db")) = false
  /\ main ascii_tables example_env
       [lit "create_clean_db.py"; lit "nope.db"; lit "out.db"; lit "x,,y"]
     = ExitSourceNotFound (lit "nope.db").
Proof.
  split; [reflexivity|].
  destruct (@main_early_exits ascii_tables example_env
              [lit "create_clean_db.py"; lit "nope.db"; lit "out.db"; lit "x,,y"])
    as [_ H].
  exact (H _ _ _ _ _ eq_refl eq_refl).
Defined.

(** ** UTF-8: what was encoded is decoded *)

Local Open Scope N_scope.

Lemma byte_val_byte_of (n : N) : n < 256 -> byte_val (byte_of n) = n.
Proof.
  intros H. unfold byte_val, byte_of.
  destruct (Byte.of_N n) as [b|] eqn:E.
  - now apply Byte.to_of_N.
  - apply Byte.of_N_None_iff in E. lia.
Qed.

Lemma utf8_decode_cons (b1 : byte) (t1 : pybytes) :
  utf8_decode_ignore (b1 :: t1)
  = let ch := byte_val b1 in
    if ch <? 0x80 then ch :: utf8_decode_ignore t1
    else if ch <? 0xC2 then utf8_decode_ignore t1
    else if ch <? 0xE0 then
      match t1 with
      | [] => []
      | b2 :: t2 =>
        let ch2 := byte_val b2 in
        if is_cont ch2
        then ((ch - 0xC0) * 64 + (ch2 - 0x80)) :: utf8_decode_ignore t2
        else utf8_decode_ignore t1
      end
    else if ch <? 0xF0 then
      match t1 with
      | [] => []
      | b2 :: t2 =>
        let ch2 := byte_val b2 in
        if negb (is_cont ch2)
           || (if ch2 <? 0xA0 then ch =? 0xE0 else ch =? 0xED)
        then utf8_decode_ignore t1
        else
          match t2 with
          | [] => []
          | b3 :: t3 =>
            let ch3 := byte_val b3 in
            if is_cont ch3
            then ((ch - 0xE0) * 4096 + (ch2 - 0x80) * 64 + (ch3 - 0x80))
                 :: utf8_decode_ignore t3
            else utf8_decode_ignore t2
          end
      end
    else if ch <? 0xF5 then
      match t1 with
      | [] => []
      | b2 :: t2 =>
        let ch2 := byte_val b2 in
        if negb (is_cont ch2)
           || (if ch2 <? 0x90 then ch =? 0xF0 else ch =? 0xF4)
        then utf8_decode_ignore t1
        else
          match t2 with
          | [] => []
          | b3 :: t3 =>
            let ch3 := byte_val b3 in
            if negb (is_cont ch3) then utf8_decode_ignore t2
            else
              match t3 with
              | [] => []
              | b4 :: t4 =>
                let ch4 := byte_val b4 in
                if is_cont ch4
                then ((ch - 0xF0) * 262144 + (ch2 - 0x80) * 4096
                      + (ch3 - 0x80) * 64 + (ch4 - 0x80))
                     :: utf8_decode_ignore t4
                else utf8_decode_ignore t3
              end
          end
      end
    else utf8_decode_ignore t1.
Proof. destruct t1 as [|b2 [|b3 [|b4 t4]]]; reflexivity. Qed.

Ltac decide_test :=
  match goal with
  | |- context [?a <? ?b] =>
      let H := fresh in
      destruct (N.ltb_spec a b) as [H | H]; try lia
  | |- context [?a <=? ?b] =>
      let H := fresh in
      destruct (N.leb_spec a b) as [H | H]; try lia
  | |- context [?a =? ?b] =>
      let H := fresh in
      destruct (N.eqb_spec a b) as [H | H]; try lia
  end.

Lemma utf8_decode_encode_char (c : pychar) (rest : pybytes) :
  scalar_value c ->
  utf8_decode_ignore (utf8_encode_char c ++ rest)
  = c :: utf8_decode_ignore rest.
Proof.
  intros [Hmax Hsur]. unfold utf8_encode_char.
  replace (c / 4096) with (c / 64 / 64)
    by (rewrite N.Div0.div_div; reflexivity).
  replace (c / 262144) with (c / 64 / 64 / 64)
    by (rewrite !N.Div0.div_div; reflexivity).
  pose proof (N.div_mod c 64 ltac:(lia)) as D1.
  pose proof (N.mod_lt c 64 ltac:(lia)) as M1.
  pose proof (N.div_mod (c / 64) 64 ltac:(lia)) as D2.
  pose proof (N.mod_lt (c / 64) 64 ltac:(lia)) as M2.
  pose proof (N.div_mod (c / 64 / 64) 64 ltac:(lia)) as D3.
  pose proof (N.mod_lt (c / 64 / 64) 64 ltac:(lia)) as M3.
  set (q1 := c / 64) in *. set (r1 := c mod 64) in *.
  set (q2 := q1 / 64) in *. set (r2 := q1 mod 64) in *.
  set (q3 := q2 / 64) in *. set (r3 := q2 mod 64) in *.
  clearbody q3 r3. clearbody q2 r2. clearbody q1 r1.
  destruct (N.ltb_spec c 0x80) as [H1 | H1].
  - cbn [app]. rewrite utf8_decode_cons. cbv zeta.
    rewrite byte_val_byte_of by lia.
    repeat decide_test. reflexivity.
  - destruct (N.ltb_spec c 0x800) as [H2 | H2].
    + cbn [app]. rewrite utf8_decode_cons. cbv zeta.
      rewrite !byte_val_byte_of by lia. unfold is_cont.
      repeat decide_test. cbn [andb]. f_equal. lia.
    + destruct (N.ltb_spec c 0x10000) as [H3 | H3].
      * cbn [app]. rewrite utf8_decode_cons. cbv zeta.
        rewrite !byte_val_byte_of by lia. unfold is_cont.
        repeat decide_test; cbn [andb orb negb]; f_equal; lia.
      * cbn [app]. rewrite utf8_decode_cons. cbv zeta.
        rewrite !byte_val_byte_of by lia. unfold is_cont.
        repeat decide_test; cbn [andb orb negb]; f_equal; lia.
Qed.

Lemma utf8_roundtrip (s : pystr) :
  Forall scalar_value s ->
  utf8_decode_ignore (utf8_encode s) = s.
Proof.
  induction 1 as [|c s Hc _ IH]; [reflexivity|].
  unfold utf8_encode in *. simpl flat_map.
  rewrite utf8_decode_encode_char by exact Hc. now rewrite IH.
Qed.

(** X17.  Decoding inverts encoding: the UTF-8 encoding of any text is
    decoded to that text, nothing ignored. *)
Theorem utf8_decode_encode (s : pystr) :
  Forall scalar_value s ->
  utf8_decode_ignore (utf8_encode s) = s.
Proof.
  intros F. unfold utf8_encode.
  induction F as [|c s Hc _ IH]; [reflexivity|].
  simpl flat_map.
  rewrite utf8_decode_encode_char by exact Hc.
  f_equal. exact IH.
Qed.

Lemma utf8_decode_encode_witness :
  Forall scalar_value [104; 233; 0x201C; 0x1F600; 0xFFFC]
  /\ utf8_decode_ignore (utf8_encode [104; 233; 0x201C; 0x1F600; 0xFFFC])
     = [104; 233; 0x201C; 0x1F600; 0xFFFC].
Proof.
  assert (F : Forall scalar_value [104; 233; 0x201C; 0x1F600; 0xFFFC])
    by (repeat constructor; unfold scalar_value; lia).
  split; [exact F|].
  exact (@utf8_decode_encode _ F).
Defined.

Lemma byte_of_not_nul (n : N) : 0 < n < 256 -> byte_of n <> x00%byte.
Proof.
  intros H E. pose proof (@byte_val_byte_of n ltac:(lia)) as V.
  rewrite E in V. unfold byte_val in V. simpl in V. lia.
Qed.

Lemma utf8_encode_char_no_nul (c : pychar) :
  c <> 0 -> c <= 0x10FFFF -> ~ In x00%byte (utf8_encode_char c).
Proof.
  intros Hc Hmax. unfold utf8_encode_char.
  replace (c / 4096) with (c / 64 / 64)
    by (rewrite N.Div0.div_div; reflexivity).
  replace (c / 262144) with (c / 64 / 64 / 64)
    by (rewrite !N.Div0.div_div; reflexivity).
  pose proof (N.div_mod c 64 ltac:(lia)) as D1.
  pose proof (N.mod_lt c 64 ltac:(lia)) as M1.
  pose proof (N.div_mod (c / 64) 64 ltac:(lia)) as D2.
  pose proof (N.mod_lt (c / 64) 64 ltac:(lia)) as M2.
  pose proof (N.div_mod (c / 64 / 64) 64 ltac:(lia)) as D3.
  pose proof (N.mod_lt (c / 64 / 64) 64 ltac:(lia)) as M3.
  set (q1 := c / 64) in *. set (r1 := c mod 64) in *.
  set (q2 := q1 / 64) in *. set (r2 := q1 mod 64) in *.
  set (q3 := q2 / 64) in *. set (r3 := q2 mod 64) in *.
  clearbody q3 r3. clearbody q2 r2. clearbody q1 r1.
  repeat decide_test; cbn [In]; intros Hin;
    repeat (destruct Hin as [Hin | Hin];
            [revert Hin; apply byte_of_not_nul; lia|]);
    exact Hin.
Qed.

Lemma utf8_encode_no_nul (s : pystr) :
  ~ In 0 s -> Forall scalar_value s -> ~ In x00%byte (utf8_encode s).
Proof.
  intros Hn F. unfold utf8_encode. rewrite in_flat_map.
  intros (c & Hc & Hb). rewrite Forall_forall in F.
  destruct (F c Hc) as [Hmax _].
  apply (@utf8_encode_char_no_nul c); auto.
  intros ->. now apply Hn.
Qed.

(** The result of the marker scan, for a marker that first occurs after
    [pre]. *)
Lemma marker_scan_result
  (U : UnicodeData) (objc : PyObjC) (pre body rest : pybytes) :
  method_pyobjc objc (pre ++ NSString ++ body ++ x00%byte :: rest) = None ->
  (forall k, (k < List.length pre)%nat ->
     bytes_starts_with NSString
       (skipn k (pre ++ NSString ++ body ++ x00%byte :: rest)) = false) ->
  ~ In x00%byte body ->
  utf8_decode_ignore body <> [] ->
  decode_attributed_body U objc (pre ++ NSString ++ body ++ x00%byte :: rest)
  = Some (utf8_decode_ignore body).
Proof.
  intros H1 Hfirst Hn Hne.
  set (data := pre ++ NSString ++ body ++ x00%byte :: rest) in *.
  assert (Hbody : body <> []) by (intros ->; now apply Hne).
  assert (Hfind : find NSString data = len pre).
  { unfold find, data. rewrite find_at_first by exact Hfirst. lia. }
  assert (Hskip : skipn (List.length pre + 8) data = body ++ x00%byte :: rest).
  { unfold data. rewrite skipn_app, skipn_all2 by lia.
    replace (List.length pre + 8 - List.length pre)%nat with 8%nat by lia.
    reflexivity. }
  assert (Hlen : len data = (len pre + 8 + len body + 1 + len rest)%Z).
  { unfold data, len. rewrite !length_app. simpl List.length. lia. }
  assert (Hpre : (0 <= len pre)%Z) by (unfold len; lia).
  assert (Hidx : Z.to_nat (len pre + 8) = (List.length pre + 8)%nat)
    by (unfold len; lia).
  assert (Hm : method_marker data = Some (utf8_decode_ignore body)).
  { unfold method_marker, contains. rewrite Hfind.
    assert (Hc : (0 <=? len pre)%Z = true) by (apply Z.leb_le; lia).
    rewrite Hc. cbv zeta.
    assert (Hl : (len pre + 8 <? len data)%Z = true)
      by (apply Z.ltb_lt; unfold len in *; lia).
    rewrite Hl.
    unfold find_from. rewrite Hidx, Hskip, find_at_nul by exact Hn.
    assert (Hb : (0 < len body)%Z)
      by (unfold len; destruct body; [contradiction | simpl; lia]).
    assert (Hg : (len pre + 8 + len body >? len pre + 8)%Z = true)
      by (apply Z.gtb_lt; lia).
    rewrite Hg. unfold slice. rewrite Hidx, Hskip.
    replace (Z.to_nat (len pre + 8 + len body - (len pre + 8)))
      with (List.length body) by (unfold len; lia).
    rewrite firstn_app, Nat.sub_diag, firstn_all. simpl firstn.
    rewrite app_nil_r.
    destruct (utf8_decode_ignore body); [contradiction | reflexivity]. }
  unfold decode_attributed_body.
  destruct data as [|b d] eqn:Ed.
  - unfold len in Hlen. simpl in Hlen. lia.
  - now rewrite H1, Hm.
Qed.

(** X18.  The marker scan recovers any text from its UTF-8 encoding: for
    a blob holding the marker (first occurring after [pre]), the encoding
    of a text that is not empty and has no NUL character, then a NUL
    byte, the decoder returns that text, when method 1 gave nothing. *)
Theorem decode_marker_scan_text
  (U : UnicodeData) (objc : PyObjC) (pre rest : pybytes) (text : pystr) :
  method_pyobjc objc (pre ++ NSString ++ utf8_encode text ++ x00%byte :: rest)
  = None ->
  (forall k, (k < List.length pre)%nat ->
     bytes_starts_with NSString
       (skipn k (pre ++ NSString ++ utf8_encode text ++ x00%byte :: rest))
     = false) ->
  text <> [] -> ~ In 0 text -> Forall scalar_value text ->
  decode_attributed_body U objc
    (pre ++ NSString ++ utf8_encode text ++ x00%byte :: rest)
  = Some text.
Proof.
  intros H1 Hfirst Hne Hn F.
  rewrite (@marker_scan_result U objc pre (utf8_encode text) rest);
    try assumption.
  - now rewrite utf8_roundtrip.
  - now apply utf8_encode_no_nul.
  - now rewrite utf8_roundtrip.
Qed.

Lemma decode_marker_scan_text_witness :
  [233; 0x201C; 0x1F600] <> []
  /\ ~ In 0 [233; 0x201C; 0x1F600]
  /\ Forall scalar_value [233; 0x201C; 0x1F600]
  /\ decode_attributed_body ascii_tables None
       ([x04]%byte ++ NSString ++ utf8_encode [233; 0x201C; 0x1F600]
         ++ x00%byte :: blit "NSDictionary")
     = Some [233; 0x201C; 0x1F600].
Proof.
  assert (H0 : ~ In 0 [233; 0x201C; 0x1F600]).
  { simpl. intros H. repeat (destruct H as [H | H]; [discriminate|]).
    exact H. }
  assert (F : Forall scalar_value [233; 0x201C; 0x1F600])
    by (repeat constructor; unfold scalar_value; lia).
  assert (Hf : forall k, (k < List.length [x04]%byte)%nat ->
     bytes_starts_with NSString
       (skipn k ([x04]%byte ++ NSString ++ utf8_encode [233; 0x201C; 0x1F600]
                  ++ x00%byte :: blit "NSDictionary")) = false).
  { intros k Hk. destruct k as [|k]; [reflexivity|]. simpl in Hk. lia. }
  split; [discriminate|]. split; [exact H0|]. split; [exact F|].
  exact (@decode_marker_scan_text ascii_tables None [x04]%byte
           (blit "NSDictionary") [233; 0x201C; 0x1F600]
           eq_refl Hf ltac:(discriminate) H0 F).
Defined.

(** ** Leading format codes do not matter *)

Local Open Scope N_scope.

Lemma replace_object_app (a b : pystr) :
  replace_object (a ++ b) = replace_object a ++ replace_object b.
Proof. unfold replace_object. apply flat_map_app. Qed.

Lemma dropwhile_app_all {A} (p : A -> bool) (a b : list A) :
  Forall (fun x => p x = true) a -> dropwhile p (a ++ b) = dropwhile p b.
Proof.
  induction 1 as [|x a Hx _ IH]; simpl; [reflexivity|]. now rewrite Hx.
Qed.

(** X19.  Format codes and whitespace put in front of a text do not
    change what [clean_message] makes of it (the text being neither of
    the sentinels, which are passed through only when they stand
    alone). *)
Theorem clean_message_leading_codes (U : UnicodeData) (codes s : pystr) :
  Forall (fun c => format_code c = true) codes ->
  s <> BINARY_DATA -> s <> NO_TEXT ->
  clean_message U (Some (codes ++ s)) = clean_message U (Some s).
Proof.
  intros F H1 H2.
  destruct codes as [|c0 codes]; [reflexivity|].
  assert (Hc0 : format_code c0 = true) by (now inversion F).
  assert (Hr : rewritten U ((c0 :: codes) ++ s) = rewritten U s).
  { unfold rewritten, artifact_rules.
    rewrite replace_object_app, filter_app.
    rewrite replace_object_fixed
      by (eapply Forall_impl; [|exact F]; intros c Hc ->; discriminate).
    rewrite dropwhile_app_all; [reflexivity|].
    eapply subseq_Forall; [apply subseq_filter | exact F]. }
  destruct (clean_message_cases U ((c0 :: codes) ++ s)) as [[_ H] | [E _]].
  - exfalso. destruct H as [H | [H | H]]; [discriminate | |];
      simpl in H; injection H as -> _; discriminate.
  - etransitivity; [exact E|]. rewrite Hr.
    destruct (clean_message_cases U s) as [[E' H] | [E' _]]; rewrite E'.
    + destruct H as [-> | [-> | ->]]; [reflexivity | contradiction..].
    + reflexivity.
Qed.

Lemma clean_message_leading_codes_witness :
  Forall (fun c => format_code c = true) (lit " +* ")
  /\ lit "dOMG  ok" <> BINARY_DATA
  /\ lit "dOMG  ok" <> NO_TEXT
  /\ clean_message ascii_tables (Some (lit " +* " ++ lit "dOMG  ok"))
     = clean_message ascii_tables (Some (lit "dOMG  ok")).
Proof.
  assert (F : Forall (fun c => format_code c = true) (lit " +* "))
    by (repeat constructor).
  split; [exact F|]. split; [discriminate|]. split; [discriminate|].
  apply (@clean_message_leading_codes ascii_tables (lit " +* ")
           (lit "dOMG  ok") F); discriminate.
Defined.

(** ** Instances of the two characterisations *)

Local Open Scope N_scope.

Lemma clean_message_unchanged_iff_witness :
  Forall (clean_char ascii_tables) (lit "see you, OK?")
  /\ artifact_rules ascii_tables (lit "see you, OK?") = lit "see you, OK?"
  /\ clean_message ascii_tables (Some (lit "see you, OK?"))
     = Some (lit "see you, OK?").
Proof.
  assert (F : Forall (clean_char ascii_tables) (lit "see you, OK?")).
  { repeat constructor; (left; reflexivity) || discriminate. }
  assert (T : trimmed (lit "see you, OK?"))
    by (apply trimmed_by_ends; reflexivity).
  assert (D : double_space_free (lit "see you, OK?"))
    by (apply has_double_space_false; reflexivity).
  split; [exact F|]. split; [reflexivity|].
  apply (proj2 (@clean_message_unchanged_iff ascii_tables (lit "see you, OK?"))).
  right. right. right.
  destruct T as [T1 T2]. repeat split; auto.
Defined.

Lemma decode_empty_iff_witness :
  method_pyobjc None (repeat "A"%byte 50 ++ blit " ") = None
  /\ method_marker (repeat "A"%byte 50 ++ blit " ") = None
  /\ (50 < len (repeat "A"%byte 50 ++ blit " "))%Z
  /\ decode_attributed_body ascii_tables None (repeat "A"%byte 50 ++ blit " ")
     = Some [].
Proof.
  assert (L : (50 < len (repeat "A"%byte 50 ++ blit " "))%Z)
    by (vm_compute; reflexivity).
  split; [reflexivity|]. split; [reflexivity|]. split; [exact L|].
  apply (proj2 (@decode_empty_iff ascii_tables None
                  (repeat "A"%byte 50 ++ blit " "))).
  split; [reflexivity|]. split; [reflexivity|]. split; [exact L|].
  split; [discriminate|]. repeat constructor.
Defined.
